(** * bl4-save-tools: the merge / canonicalise engine and its file pipeline

    A shallow embedding of [scripts/extract_yaml.py], [scripts/extract_lists.py]
    and [scripts/update_blobs.py].

    Conventions of the embedding.
    - A Python [str] is a [string], read as its sequence of code points, each
      below 256; [lower], [py_strip] and [py_repr_str] follow Python on that
      range.
    - YAML numbers are integers ([Z]); floats are outside the embedding.
    - A Python [dict] with [str] keys is an association list in insertion
      order whose keys are pairwise distinct ([wf]); [dict_set] overwrites in
      place or appends, as assignment to [d[k]] does.
    - Values are trees: [merge_yaml] updates [existing] in place, which is
      passing the updated dict on as long as no subtree is shared (YAML
      aliases are outside the embedding).  In [merge_yaml(X, X)] on one
      object every key is read before its own turn writes it, so the result
      is the one computed here on two equal trees.
    - [sorted] and [list.sort] are stable; they are modelled by a stable
      insertion sort that only ever asks [<] of two keys, as Python does.
    - [py_str] and [py_repr] are the renderings of a value that the
      interpreter renders.  An [int] of more digits than
      [sys.get_int_max_str_digits()] and a value nested deeper than the
      recursion limit are not rendered: [str] raises.  [sort_dict] lets that
      exception through, so it is the function computed whenever the call
      returns; [merge_lists] catches it, which [merge_lists_checked] writes
      out. *)

From Stdlib Require Import ZArith Ascii String List Bool Lia Permutation.
From Stdlib Require Import Sorting.Sorted Numbers.DecimalString.
From stdpp Require Import base gmap strings list.

Set Default Proof Using "Type".

(** ** Strings *)

Module Str.

Definition code (c : ascii) : N := N_of_ascii c.

(** [str.lower] on one code point below 256: A-Z and the Latin-1 capitals
    (U+00C0..U+00DE without the multiplication sign) move up by 32. *)
Definition lower_char (c : ascii) : ascii :=
  let n := code c in
  if ((65 <=? n) && (n <=? 90)
      || (192 <=? n) && (n <=? 222) && negb (n =? 215))%N
  then ascii_of_N (n + 32) else c.

Fixpoint lower (s : string) : string :=
  match s with
  | EmptyString => EmptyString
  | String c s' => String (lower_char c) (lower s')
  end.

(** [str.isspace] on one code point below 256. *)
Definition is_space (c : ascii) : bool :=
  let n := code c in
  ((9 <=? n) && (n <=? 13) || (28 <=? n) && (n <=? 32)
   || (n =? 133) || (n =? 160))%N.

Fixpoint lstrip (s : string) : string :=
  match s with
  | String c s' => if is_space c then lstrip s' else s
  | EmptyString => EmptyString
  end.

(** [rstrip]: drop the trailing run of white space. *)
Fixpoint rstrip (s : string) : string :=
  match s with
  | EmptyString => EmptyString
  | String c s' =>
      match rstrip s' with
      | EmptyString => if is_space c then EmptyString else String c EmptyString
      | r => String c r
      end
  end.

(** [s.strip()] *)
Definition py_strip (s : string) : string := rstrip (lstrip s).

Fixpoint contains_char (c : ascii) (s : string) : bool :=
  match s with
  | EmptyString => false
  | String d s' => Ascii.eqb c d || contains_char c s'
  end.

(** [sep.join(parts)] *)
Fixpoint join (sep : string) (parts : list string) : string :=
  match parts with
  | [] => ""
  | [p] => p
  | p :: rest => p +:+ sep +:+ join sep rest
  end.

Definition hex_digit (n : N) : ascii :=
  ascii_of_N (if (n <? 10)%N then 48 + n else 87 + n).

(** [str.isprintable] on one code point below 256. *)
Definition is_printable (c : ascii) : bool :=
  let n := code c in
  ((32 <=? n) && (n <=? 126) || (161 <=? n) && negb (n =? 173))%N.

Definition backslash : ascii := ascii_of_N 92.
Definition double_quote : ascii := ascii_of_N 34.

(** One character of [repr(s)] with [quote] as the chosen delimiter. *)
Definition repr_char (quote c : ascii) : string :=
  let n := code c in
  if Ascii.eqb c quote || Ascii.eqb c backslash then String backslash (String c "")
  else if (n =? 9)%N then "\t"
  else if (n =? 10)%N then "\n"
  else if (n =? 13)%N then "\r"
  else if is_printable c then String c ""
  else String backslash (String "x"%char
         (String (hex_digit (n / 16)) (String (hex_digit (n mod 16)) ""))).

Fixpoint repr_body (quote : ascii) (s : string) : string :=
  match s with
  | EmptyString => ""
  | String c s' => repr_char quote c +:+ repr_body quote s'
  end.

(** [repr(s)] for a [str]: double quotes only when [s] has a single quote
    and no double quote. *)
Definition py_repr_str (s : string) : string :=
  let quote : ascii :=
    if contains_char "'"%char s && negb (contains_char double_quote s)
    then double_quote else "'"%char in
  String quote (repr_body quote s +:+ String quote "").

(** [str(n)] for an [int]. *)
Definition py_str_int (n : Z) : string := NilZero.string_of_int (Z.to_int n).

End Str.

Import Str.

(** ** The Value model *)

Inductive Scalar : Type :=
| SStr (s : string)
| SInt (n : Z)
| SBool (b : bool)
| SNull.

Unset Elimination Schemes.
Inductive Value : Type :=
| VScalar (s : Scalar)
| VList (items : list Value)
| VMap (entries : list (string * Value)).
Set Elimination Schemes.

(** A [dict] with [str] keys, in insertion order. *)
Definition dict (A : Type) : Type := list (string * A).

Section ValueInd.
Variable P : Value -> Prop.
Hypothesis P_scalar : forall s, P (VScalar s).
Hypothesis P_list : forall items, Forall P items -> P (VList items).
Hypothesis P_map :
  forall entries, Forall (fun kv => P (snd kv)) entries -> P (VMap entries).

Fixpoint Value_ind (v : Value) : P v :=
  match v with
  | VScalar s => P_scalar s
  | VList items =>
      P_list items
        ((fix go (l : list Value) : Forall P l :=
            match l with
            | [] => @Stdlib.Lists.List.Forall_nil _ _
            | x :: l' => @Stdlib.Lists.List.Forall_cons _ _ _ _ (Value_ind x) (go l')
            end) items)
  | VMap entries =>
      P_map entries
        ((fix go (l : list (string * Value))
            : Forall (fun kv => P (snd kv)) l :=
            match l with
            | [] => @Stdlib.Lists.List.Forall_nil _ _
            | kv :: l' => @Stdlib.Lists.List.Forall_cons _ _ _ _ (Value_ind (snd kv)) (go l')
            end) entries)
  end.
End ValueInd.

(** ** Dictionaries *)

Section Dict.
Context {A : Type}.

(** [d.get(k)] / [k in d] *)
Fixpoint dict_get (k : string) (d : dict A) : option A :=
  match d with
  | [] => None
  | (k', v) :: d' => if String.eqb k k' then Some v else dict_get k d'
  end.

Definition dict_has (k : string) (d : dict A) : bool :=
  match dict_get k d with Some _ => true | None => false end.

(** [d[k] = v]: an existing key keeps its position, a new one goes last. *)
Fixpoint dict_set (k : string) (v : A) (d : dict A) : dict A :=
  match d with
  | [] => [(k, v)]
  | (k', v') :: d' =>
      if String.eqb k k' then (k', v) :: d' else (k', v') :: dict_set k v d'
  end.

Definition keys (d : dict A) : list string := map fst d.
Definition values (d : dict A) : list A := map snd d.
End Dict.

(** ** Python's [==], [<], [str] on values *)

Definition int_of_bool (b : bool) : Z := if b then 1 else 0.

(** [a == b] on scalars; [bool] is a subclass of [int]. *)
Definition scalar_eq (a b : Scalar) : bool :=
  match a, b with
  | SStr x, SStr y => String.eqb x y
  | SInt x, SInt y => Z.eqb x y
  | SBool x, SBool y => Bool.eqb x y
  | SInt x, SBool y => Z.eqb x (int_of_bool y)
  | SBool x, SInt y => Z.eqb (int_of_bool x) y
  | SNull, SNull => true
  | _, _ => false
  end.

(** [a == b]: lists element by element, dicts key by key whatever the order. *)
Fixpoint py_eq (a b : Value) {struct a} : bool :=
  match a, b with
  | VScalar x, VScalar y => scalar_eq x y
  | VList xs, VList ys =>
      (fix go (xs ys : list Value) {struct xs} : bool :=
         match xs, ys with
         | [], [] => true
         | x :: xs', y :: ys' => py_eq x y && go xs' ys'
         | _, _ => false
         end) xs ys
  | VMap xs, VMap ys =>
      Nat.eqb (length xs) (length ys)
      && (fix go (xs : list (string * Value)) : bool :=
            match xs with
            | [] => true
            | (k, v) :: xs' =>
                match dict_get k ys with
                | Some w => py_eq v w
                | None => false
                end && go xs'
            end) xs
  | _, _ => false
  end.

(** [a < b]; [None] stands for the [TypeError] of an unsupported pair. *)
Fixpoint py_lt (a b : Value) {struct a} : option bool :=
  match a, b with
  | VScalar (SStr x), VScalar (SStr y) => Some (String.ltb x y)
  | VScalar (SInt x), VScalar (SInt y) => Some (Z.ltb x y)
  | VScalar (SInt x), VScalar (SBool y) => Some (Z.ltb x (int_of_bool y))
  | VScalar (SBool x), VScalar (SInt y) => Some (Z.ltb (int_of_bool x) y)
  | VScalar (SBool x), VScalar (SBool y) =>
      Some (Z.ltb (int_of_bool x) (int_of_bool y))
  | VList xs, VList ys =>
      (fix go (xs ys : list Value) {struct xs} : option bool :=
         match xs, ys with
         | [], [] => Some false
         | [], _ :: _ => Some true
         | _ :: _, [] => Some false
         | x :: xs', y :: ys' => if py_eq x y then go xs' ys' else py_lt x y
         end) xs ys
  | _, _ => None
  end.

Definition scalar_repr (s : Scalar) : string :=
  match s with
  | SStr x => py_repr_str x
  | SInt n => py_str_int n
  | SBool true => "True"
  | SBool false => "False"
  | SNull => "None"
  end.

(** [repr(v)] *)
Fixpoint py_repr (v : Value) : string :=
  match v with
  | VScalar s => scalar_repr s
  | VList items => "[" +:+ join ", " (map py_repr items) +:+ "]"
  | VMap entries =>
      "{" +:+ join ", "
            (map (fun '(k, x) => py_repr_str k +:+ ": " +:+ py_repr x) entries)
          +:+ "}"
  end.

(** [str(v)], when it returns: a [str] is itself, everything else prints as
    its [repr]. *)
Definition py_str (v : Value) : string :=
  match v with
  | VScalar (SStr x) => x
  | _ => py_repr v
  end.

(** ** Sorting *)

Section Sorting.
Context {A : Type}.

(** [sorted(l, key=key)] when every key is a [str]. *)
Fixpoint insert_str (key : A -> string) (x : A) (l : list A) : list A :=
  match l with
  | [] => [x]
  | y :: l' =>
      if String.ltb (key y) (key x) then y :: insert_str key x l'
      else x :: l
  end.

Fixpoint sorted_str (key : A -> string) (l : list A) : list A :=
  match l with
  | [] => []
  | x :: l' => insert_str key x (sorted_str key l')
  end.

(** [sorted(l, key=key)] for keys of any type: [None] when a comparison
    raises. *)
Fixpoint insert_key (key : A -> Value) (x : A) (l : list A)
  : option (list A) :=
  match l with
  | [] => Some [x]
  | y :: l' =>
      match py_lt (key y) (key x) with
      | None => None
      | Some true =>
          match insert_key key x l' with
          | Some r => Some (y :: r)
          | None => None
          end
      | Some false => Some (x :: l)
      end
  end.

Fixpoint py_sorted (key : A -> Value) (l : list A) : option (list A) :=
  match l with
  | [] => Some []
  | x :: l' =>
      match py_sorted key l' with
      | Some s => insert_key key x s
      | None => None
      end
  end.
End Sorting.

(** ** [extract_yaml.py]: [sort_dict], [merge_lists], [merge_yaml] *)

(** The sort key [lambda x: str(x).lower()]. *)
Definition render_key (x : Value) : Value := VScalar (SStr (lower (py_str x))).

(** The sort key [lambda x: x[0].lower()] on the items of a dict. *)
Definition item_key {A : Type} (kv : string * A) : string := lower (fst kv).

(** Iterating a dict yields each key once, so sorting the keys and reading
    [obj[k]] for each is sorting the items by their key. *)
Fixpoint sort_dict (obj : Value) : Value :=
  match obj with
  | VMap entries =>
      VMap (sorted_str item_key (map (fun '(k, v) => (k, sort_dict v)) entries))
  | VList items =>
      let sorted_items := map sort_dict items in
      VList (match py_sorted render_key sorted_items with
             | Some s => s
             | None => sorted_items
             end)
  | VScalar _ => obj
  end.

Definition is_str (x : Value) : bool :=
  match x with VScalar (SStr _) => true | _ => false end.

(** [x.lower()], used by the source only under its all-[str] guard. *)
Definition str_lower (x : Value) : string :=
  match x with VScalar (SStr s) => lower s | _ => "" end.

(** The fallback loop: [merged.append(item)] unless some element [==] it. *)
Definition append_unique (old_list new_list : list Value) : list Value :=
  fold_left
    (fun merged item =>
       if existsb (fun existing_item => py_eq item existing_item) merged
       then merged else merged ++ [item])
    new_list old_list.

(** The index built by the all-[str] branch. *)
Definition lower_index (old_list new_list : list Value) : dict Value :=
  let mapping := fold_left (fun m x => dict_set (str_lower x) x m) old_list [] in
  fold_left
    (fun m x => let lk := str_lower x in
                if dict_has lk m then m else dict_set lk x m)
    new_list mapping.

Definition merge_lists (old_list new_list : list Value) : list Value :=
  if forallb is_str (old_list ++ new_list) then
    sorted_str str_lower (values (lower_index old_list new_list))
  else
    let merged := append_unique old_list new_list in
    match py_sorted render_key merged with
    | Some s => s
    | None => merged
    end.

(** [sorted(existing.items(), key=...)], then [clear] and [update]. *)
Definition sort_items (d : dict Value) : dict Value := sorted_str item_key d.

(** The body of the loop of [merge_yaml] for one [(key, new_val)]; the inner
    [loop] is [merge_yaml] itself on the two nested dicts (see
    [merge_key_dicts]). *)
Fixpoint merge_key (existing : dict Value) (key : string) (new_val : Value)
  {struct new_val} : dict Value :=
  match dict_get key existing with
  | Some old_val =>
      match old_val, new_val with
      | VMap old_entries, VMap new_entries =>
          dict_set key
            (VMap (sort_items
               ((fix loop (ex : dict Value) (items : dict Value) : dict Value :=
                   match items with
                   | [] => ex
                   | (k, v) :: rest => loop (merge_key ex k v) rest
                   end) old_entries new_entries)))
            existing
      | VList old_items, VList new_items =>
          dict_set key (VList (merge_lists old_items new_items)) existing
      | VScalar _, _ => dict_set key new_val existing
      | _, _ => existing
      end
  | None => dict_set key new_val existing
  end.

Definition merge_yaml (existing new : dict Value) : dict Value :=
  sort_items (fold_left (fun ex '(k, v) => merge_key ex k v) new existing).

(** The lowercased rendering used as sort key, as a [string]. *)
Definition render (x : Value) : string := lower (py_str x).

(** [l] is in non-decreasing order of [key]. *)
Fixpoint sortedb {A : Type} (key : A -> string) (l : list A) : bool :=
  match l with
  | x :: (y :: _) as l' => String.leb (key x) (key y) && sortedb key l'
  | _ => true
  end.


(** ** Notions used to state the properties *)

(** The scalars reachable from a value, in traversal order. *)
Fixpoint scalars (v : Value) : list Scalar :=
  match v with
  | VScalar s => [s]
  | VList items => flat_map scalars items
  | VMap entries => flat_map (fun '(_, x) => scalars x) entries
  end.

Fixpoint distinct (l : list string) : bool :=
  match l with
  | [] => true
  | x :: l' => negb (existsb (String.eqb x) l') && distinct l'
  end.

(** Well-formed value: the keys of every mapping in it are pairwise
    distinct, as in a Python [dict]. *)
Fixpoint wf (v : Value) : bool :=
  match v with
  | VScalar _ => true
  | VList items => forallb wf items
  | VMap entries =>
      distinct (keys entries) && forallb (fun '(_, x) => wf x) entries
  end.

(** The keys of a mapping are sorted case-insensitively. *)
Definition keys_sorted (entries : dict Value) : bool := sortedb item_key entries.

(** Every mapping reachable in [v], at every depth, has sorted keys. *)
Fixpoint all_sorted (v : Value) : bool :=
  match v with
  | VScalar _ => true
  | VList items => forallb all_sorted items
  | VMap entries =>
      keys_sorted entries && forallb (fun '(_, x) => all_sorted x) entries
  end.

(** A list that [merge_lists] merges with itself into its canonical form:
    strings pairwise distinct once lowercased, or, when not all strings,
    elements that are well formed and already canonical. *)
Definition list_self_mergeable (l : list Value) : Prop :=
  if forallb is_str l then distinct (map str_lower l) = true
  else Forall (fun x => wf x = true /\ sort_dict x = x) l.

(** A tree whose mappings have distinct keys and whose list values, reached
    through mappings, are all [list_self_mergeable]. *)
Fixpoint self_mergeable (v : Value) : Prop :=
  match v with
  | VScalar _ => True
  | VList items => list_self_mergeable items
  | VMap entries =>
      distinct (keys entries) = true
      /\ (fix go (es : list (string * Value)) : Prop :=
            match es with
            | [] => True
            | (_, x) :: es' => self_mergeable x /\ go es'
            end) entries
  end.

(** The last element of [l] whose lowercase form is [k]. *)
Fixpoint last_with (k : string) (l : list string) : option string :=
  match l with
  | [] => None
  | x :: l' =>
      match last_with k l' with
      | Some y => Some y
      | None => if String.eqb (lower x) k then Some x else None
      end
  end.

(** The first element of [l] whose lowercase form is [k]. *)
Fixpoint first_with (k : string) (l : list string) : option string :=
  match l with
  | [] => None
  | x :: l' => if String.eqb (lower x) k then Some x else first_with k l'
  end.

(** The casing [merge_lists] keeps for the lowercase key [k]: the last one in
    [existing] when [existing] has the key, else the first one in
    [incoming]. *)
Definition kept_casing (existing incoming : list string) (k : string)
  : option string :=
  match last_with k existing with
  | Some x => Some x
  | None => first_with k incoming
  end.

(** The casing of the first-seen rule, existing before incoming: the first
    element of [existing ++ incoming] with the lowercase key [k]. *)
Definition first_seen_casing (existing incoming : list string) (k : string)
  : option string :=
  first_with k (existing ++ incoming).

Definition str (s : string) : Value := VScalar (SStr s).
Definition int (n : Z) : Value := VScalar (SInt n).

(** The loop of [merge_yaml] over the items of [new]. *)
Definition merge_items (existing new : dict Value) : dict Value :=
  fold_left (fun ex '(k, v) => merge_key ex k v) new existing.

(** Every entry of the index is stored under its own lowercase form, and no
    key occurs twice. *)
Definition index_ok (m : dict Value) : Prop :=
  NoDup (keys m) /\ Forall (fun '(k, v) => str_lower v = k) m.

(** The three variants of the Value model. *)
Inductive Shape : Type := ShScalar | ShList | ShMapping.

Definition shape (v : Value) : Shape :=
  match v with
  | VScalar _ => ShScalar
  | VList _ => ShList
  | VMap _ => ShMapping
  end.

(** ** The outside world: files, exceptions, external libraries *)

(** The exceptions that end a run.  [Unmodelled] marks a Python behaviour
    that leaves the Value model (a [dict] with a key that is not a [str]). *)
Inductive exn : Type :=
| FileNotFoundError
| YAMLError
| ReError
| AttributeError
| TypeError
| ValueError
| KeyError
| UnboundLocalError
| SystemExit (code : Z)
| Unmodelled.

Inductive Outcome (A : Type) : Type :=
| Ok (a : A)
| Raise (e : exn).
Arguments Ok {A} a.
Arguments Raise {A} e.

(** A flat file system of text files, and the paths opened for writing so
    far, oldest first.  Any path but the empty one can be written; the line
    separator of the platform is the line feed.  Messages printed to the
    console are not modelled. *)
Record World : Type := mkWorld {
  files : gmap string string;
  written : list string
}.

(** A computation that reads and writes the world and may raise. *)
Definition M (A : Type) : Type := World -> Outcome A * World.

Definition ret {A : Type} (a : A) : M A := fun w => (Ok a, w).

Definition raise {A : Type} (e : exn) : M A := fun w => (Raise e, w).

Definition bind {A B : Type} (m : M A) (k : A -> M B) : M B :=
  fun w => match m w with
           | (Ok a, w') => k a w'
           | (Raise e, w') => (Raise e, w')
           end.

Notation "x <- m ;; k" := (bind m (fun x => k))
  (at level 100, m at next level, right associativity).
Notation "m ;;; k" := (bind m (fun _ => k))
  (at level 100, right associativity).

Definition lift {A : Type} (r : Outcome A) : M A := fun w => (r, w).

(** [os.path.exists(path)] *)
Definition path_exists (path : string) : M bool :=
  fun w => (Ok (bool_decide (is_Some (files w !! path))), w).

(** Reading in text mode turns a carriage return, alone or before a line
    feed, into a line feed. *)
Fixpoint universal_newlines (s : string) : string :=
  match s with
  | EmptyString => EmptyString
  | String c s' =>
      if Ascii.eqb c (ascii_of_N 13) then
        match s' with
        | String d _ =>
            if Ascii.eqb d (ascii_of_N 10) then universal_newlines s'
            else String (ascii_of_N 10) (universal_newlines s')
        | EmptyString => String (ascii_of_N 10) EmptyString
        end
      else String c (universal_newlines s')
  end.

(** The text of a file as a reader sees it. *)
Definition file_text (w : World) (path : string) : option string :=
  universal_newlines <$> files w !! path.

(** [open(path, 'r').read()] *)
Definition read_text (path : string) : M string :=
  fun w => match file_text w path with
           | Some text => (Ok text, w)
           | None => (Raise FileNotFoundError, w)
           end.

(** [open(path, 'w').write(text)]; the empty path cannot be opened. *)
Definition write_text (path text : string) : M unit :=
  fun w => if String.eqb path "" then (Raise FileNotFoundError, w)
           else (Ok tt, {| files := <[path := text]> (files w);
                           written := written w ++ [path] |}).

(** The exit status of the process: [0] at the end of the script, the code
    of [sys.exit], [1] for an uncaught exception. *)
Definition exit_code {A : Type} (r : Outcome A) : Z :=
  match r with
  | Ok _ => 0
  | Raise (SystemExit code) => code
  | Raise _ => 1
  end.

Definition run (m : M unit) (w : World) : Z * World :=
  let '(r, w') := m w in (exit_code r, w').

Definition bytes : Type := list Byte.byte.

(** The library functions the scripts call, and the import flag
    [HAS_UPDATE_BLOBS]; their code is not part of the repository. *)
Class Libs : Type := {
  (** [yaml.safe_load] with the scripts' constructor for unknown tags;
      [None] when the parser raises *)
  yaml_safe_load : string -> option Value;
  (** [yaml.safe_dump(obj, allow_unicode=True, sort_keys=False)] *)
  yaml_safe_dump : Value -> string;
  (** [s.encode('utf-8')] *)
  utf8_encode : string -> bytes;
  (** [zlib.compress] *)
  zlib_compress : bytes -> bytes;
  (** [base64.b64encode] *)
  b64encode : bytes -> bytes;
  (** [b.decode('ascii')] *)
  ascii_decode : bytes -> string;
  (** [str(Path(p).with_suffix(''))] *)
  path_without_suffix : string -> string;
  (** [os.path.normpath(os.path.join(script_dir, p))] *)
  resolve_from_script_dir : string -> string;
  (** [re.escape] *)
  re_escape : string -> string;
  (** [re.search(pattern, s)] found a match *)
  re_search : string -> string -> bool;
  (** [re.sub(pattern, repl, s)]; [None] when the template is rejected *)
  re_sub : string -> string -> string -> option string;
  (** [re.split(pattern, s)] *)
  re_split : string -> string -> list string;
  has_update_blobs : bool
}.

(** The line feed character, as a string. *)
Definition nl : string := String (ascii_of_N 10) "".

(** Truth value of an optional command-line string: [None] and [''] are
    false. *)
Definition given (p : option string) : bool :=
  match p with Some s => negb (String.eqb s "") | None => false end.

Definition or_empty (p : option string) : string :=
  match p with Some s => s | None => "" end.

(** Truth value of a parsed document, as in [yaml.safe_load(f) or {}]. *)
Definition py_truthy (v : Value) : bool :=
  match v with
  | VScalar SNull => false
  | VScalar (SBool b) => b
  | VScalar (SInt n) => negb (Z.eqb n 0)
  | VScalar (SStr s) => negb (String.eqb s "")
  | VList items => match items with [] => false | _ => true end
  | VMap entries => match entries with [] => false | _ => true end
  end.

(** [len(v)] *)
Definition py_len (v : Value) : Outcome Z :=
  match v with
  | VScalar (SStr s) => Ok (Z.of_nat (String.length s))
  | VScalar _ => Raise TypeError
  | VList items => Ok (Z.of_nat (length items))
  | VMap entries => Ok (Z.of_nat (length entries))
  end.

(** [d.get(key, default)] *)
Definition py_get (d : Value) (key : string) (default : Value) : Outcome Value :=
  match d with
  | VMap entries =>
      Ok (match dict_get key entries with Some v => v | None => default end)
  | _ => Raise AttributeError
  end.

(** [d[key]] *)
Definition py_getitem (d : Value) (key : string) : Outcome Value :=
  match d with
  | VMap entries =>
      match dict_get key entries with Some v => Ok v | None => Raise KeyError end
  | _ => Raise TypeError
  end.

(** [merge_yaml(existing, new)] as the interpreter runs it on any two
    values: [new.items()] needs a dict, and a first step on an [existing]
    that is no dict ends in a [TypeError], whichever branch it takes. *)
Definition merge_yaml_any (existing new : Value) : Outcome Value :=
  match new with
  | VMap new_entries =>
      match existing with
      | VMap entries => Ok (VMap (merge_yaml entries new_entries))
      | _ => match new_entries with
             | [] => Ok existing
             | _ :: _ => Raise TypeError
             end
      end
  | _ => Raise AttributeError
  end.

(** ** [update_blobs.py] *)

Section Scripts.
Context {L : Libs}.

(** The chain [base64.b64encode(zlib.compress(s.encode('utf-8'))).decode('ascii')]. *)
Definition compress_b64 (s : string) : string :=
  ascii_decode (b64encode (zlib_compress (utf8_encode s))).

(** The pattern of [update_blob_constant]: the word const, white space, the
    escaped name, an equals sign between optional white space (all of it the
    first group), then a single-quoted literal and a semicolon. *)
Definition blob_pattern (constant_name : string) : string :=
  "(const\s+" +:+ re_escape constant_name +:+ "\s*=\s*" +:+ ")'([^']*" +:+ ")';".

Definition update_blob_constant
    (blobs_js_path constant_name compressed_value : string) : M bool :=
  found <- path_exists blobs_js_path ;;
  if negb found then ret false else
  content <- read_text blobs_js_path ;;
  let pattern := blob_pattern constant_name in
  if negb (re_search pattern content) then ret false else
  match re_sub pattern ("\1'" +:+ compressed_value +:+ "';") content with
  | None => raise ReError
  | Some new_content =>
      if String.eqb new_content content then ret true else
      write_text blobs_js_path new_content ;;;
      ret true
  end.

Definition compress_yaml_file (yaml_file : string) : M string :=
  text <- read_text yaml_file ;;
  match yaml_safe_load text with
  | None => raise YAMLError
  | Some data => ret (compress_b64 (yaml_safe_dump data))
  end.

(** [s.split('\n')] *)
Fixpoint split_nl (s : string) : list string :=
  match s with
  | EmptyString => [""]
  | String c s' =>
      if Ascii.eqb c (ascii_of_N 10) then "" :: split_nl s'
      else match split_nl s' with
           | line :: rest => String c line :: rest
           | [] => [String c ""]
           end
  end.

Definition nonempty (s : string) : bool := negb (String.eqb s "").

Definition compress_text_list (text_file : string) : M string :=
  text <- read_text text_file ;;
  let content := py_strip text in
  let joined :=
    if contains_char (ascii_of_N 10) content
       && negb (contains_char ","%char content)
    then join "," (filter (fun l => nonempty l) (map py_strip (split_nl content)))
    else content in
  ret (compress_b64 joined).

Definition read_compressed_file (compressed_file : string) : M string :=
  text <- read_text compressed_file ;;
  ret (py_strip text).

(** The input source of [update_blobs.py]; the three options exclude one
    another and one is required. *)
Inductive BlobSource : Type :=
| FromFile (path : string)
| FromYaml (path : string)
| FromText (path : string).

Record BlobArgs : Type := {
  ub_blobs_js : string;
  ub_constant : string;
  ub_source : BlobSource
}.

Definition update_blobs_main (args : BlobArgs) : M unit :=
  let blobs_js_path := resolve_from_script_dir (ub_blobs_js args) in
  let load (path : string) (reader : string -> M string) : M string :=
    if String.eqb path "" then raise UnboundLocalError else
    found <- path_exists path ;;
    if negb found then raise (SystemExit 1) else reader path in
  compressed_value <-
    match ub_source args with
    | FromFile path => load path read_compressed_file
    | FromYaml path => load path compress_yaml_file
    | FromText path => load path compress_text_list
    end ;;
  if String.eqb compressed_value "" then raise (SystemExit 1) else
  success <- update_blob_constant blobs_js_path (ub_constant args) compressed_value ;;
  if negb success then raise (SystemExit 1) else ret tt.

(** ** [extract_yaml.py]: the file pipeline *)

Definition write_yaml_and_compressed (obj : Value) (output_yaml : string)
    (compressed : bool) (blob_constant blobs_js_path : option string) : M unit :=
  found <- path_exists output_yaml ;;
  obj <- (if nonempty output_yaml && found then
            text <- read_text output_yaml ;;
            match yaml_safe_load text with
            | None => raise YAMLError
            | Some loaded =>
                let existing := if py_truthy loaded then loaded else VMap [] in
                lift (merge_yaml_any existing obj)
            end
          else ret obj) ;;
  write_text output_yaml (yaml_safe_dump obj) ;;;
  if compressed then
    let compressed_txt := path_without_suffix output_yaml +:+ "_compressed.txt" in
    let yaml_str := yaml_safe_dump obj in
    let b64 := compress_b64 yaml_str in
    write_text compressed_txt b64 ;;;
    if given blob_constant && given blobs_js_path && has_update_blobs then
      update_blob_constant (or_empty blobs_js_path) (or_empty blob_constant) b64 ;;;
      ret tt
    else ret tt
  else ret tt.

(** One element of the sequence given to [dict(...)]: it must yield exactly
    two items, a hashable key and a value. *)
Definition pair_of (x : Value) : Outcome (string * Value) :=
  match x with
  | VList [VScalar (SStr k); v] => Ok (k, v)
  | VList [VScalar _; _] => Raise Unmodelled
  | VList [_; _] => Raise TypeError
  | VList _ => Raise ValueError
  | VScalar (SStr (String a (String b EmptyString))) =>
      Ok (String a "", str (String b ""))
  | VScalar (SStr _) => Raise ValueError
  | VScalar _ => Raise TypeError
  | VMap [(k1, _); (k2, _)] => Ok (k1, str k2)
  | VMap _ => Raise ValueError
  end.

(** [dict(x)] *)
Definition py_dict (x : Value) : Outcome (dict Value) :=
  match x with
  | VMap entries => Ok entries
  | VList items =>
      fold_left
        (fun acc item =>
           match acc, pair_of item with
           | Ok d, Ok (k, v) => Ok (dict_set k v d)
           | Ok _, Raise e => Raise e
           | Raise e, _ => Raise e
           end)
        items (Ok [])
  | VScalar (SStr EmptyString) => Ok []
  | VScalar (SStr _) => Raise ValueError
  | VScalar _ => Raise TypeError
  end.

(** [sorted(d.keys())] then [d[k]] for each: the items in plain key order. *)
Definition sorted_by_key (d : dict Value) : dict Value :=
  sorted_str (fun kv => fst kv) d.

(** One turn of the loop of [extract_missionsets]. *)
Definition copy_missionset (missionset : Value) : Outcome Value :=
  match py_dict missionset with
  | Raise e => Raise e
  | Ok missionset_copy =>
      match missionset with
      | VMap entries =>
          match dict_get "missions" entries with
          | Some (VMap missions) =>
              Ok (VMap (dict_set "missions" (VMap (sorted_by_key missions))
                                 missionset_copy))
          | _ => Ok (VMap missionset_copy)
          end
      | _ => Ok (VMap missionset_copy)
      end
  end.

Definition extract_missionsets (data : Value) : Outcome Value :=
  match py_get data "missions" (VMap []) with
  | Raise e => Raise e
  | Ok missions =>
      match py_get missions "local_sets" (VMap []) with
      | Raise e => Raise e
      | Ok (VMap local_sets) =>
          fold_left
            (fun acc '(missionset_key, missionset) =>
               match acc, copy_missionset missionset with
               | Ok (VMap sorted_sets), Ok missionset_copy =>
                   Ok (VMap (dict_set missionset_key missionset_copy sorted_sets))
               | Ok other, Ok _ => Ok other
               | Ok _, Raise e => Raise e
               | Raise e, _ => Raise e
               end)
            (sorted_by_key local_sets) (Ok (VMap []))
      | Ok _ => Raise AttributeError
      end
  end.

Definition get_path (data : Value) (k1 k2 k3 : string) : Outcome Value :=
  match py_get data k1 (VMap []) with
  | Raise e => Raise e
  | Ok a =>
      match py_get a k2 (VMap []) with
      | Raise e => Raise e
      | Ok b => py_get b k3 (VMap [])
      end
  end.

Definition extract_collectibles (data : Value) : Outcome Value :=
  get_path data "stats" "openworld" "collectibles".

Definition extract_global_unlockables (data : Value) : Outcome Value :=
  get_path data "domains" "local" "unlockables".

Record Args : Type := {
  input : string;
  missions_out : option string;
  missions_comp : bool;
  collectibles_out : option string;
  collectibles_comp : bool;
  unlockables_out : option string;
  unlockables_comp : bool;
  blobs_js : option string
}.

(** One [if args.<kind>_out:] block of the script. *)
Definition extract_step (extracted : Outcome Value) (out : option string)
    (comp : bool) (constant_name : string) (blobs : option string) : M unit :=
  if given out then
    obj <- lift extracted ;;
    write_yaml_and_compressed obj (or_empty out) comp
      (if given blobs then Some constant_name else None) blobs ;;;
    _ <- lift (py_len obj) ;;
    ret tt
  else ret tt.

Definition sorted_value (extracted : Outcome Value) : Outcome Value :=
  match extracted with Ok v => Ok (sort_dict v) | Raise e => Raise e end.

(** The [__main__] block of [extract_yaml.py], after argument parsing. *)
Definition extract_yaml_main (args : Args) : M unit :=
  if negb (given (missions_out args)) && negb (given (collectibles_out args))
     && negb (given (unlockables_out args))
  then raise (SystemExit 1) else
  text <- read_text (input args) ;;
  match yaml_safe_load text with
  | None => raise YAMLError
  | Some data =>
      extract_step (extract_missionsets data) (missions_out args)
        (missions_comp args) "MISSIONSETS_COMPRESSED" (blobs_js args) ;;;
      extract_step (sorted_value (extract_collectibles data))
        (collectibles_out args) (collectibles_comp args)
        "COLLECTIBLES_COMPRESSED" (blobs_js args) ;;;
      extract_step (sorted_value (extract_global_unlockables data))
        (unlockables_out args) (unlockables_comp args)
        "UNLOCKABLES_COMPRESSED" (blobs_js args)
  end.

(** ** [extract_lists.py] *)

(** The lines that iterating over a text file yields, each stripped, the
    empty ones left out. *)
Definition file_lines (content : string) : list string :=
  filter (fun l => nonempty l) (map py_strip (split_nl content)).

(** The set built by the loop over the lines of the output file. *)
Definition read_entries (content : string) : gset string :=
  list_to_set (file_lines content).

(** [s.rsplit('.', 1)[0]] *)
Fixpoint before_last_dot (s : string) : option string :=
  match s with
  | EmptyString => None
  | String c s' =>
      match before_last_dot s' with
      | Some r => Some (String c r)
      | None => if Ascii.eqb c "."%char then Some "" else None
      end
  end.

Definition rsplit_dot (s : string) : string :=
  match before_last_dot s with Some r => r | None => s end.

(** [sorted(entries)] on a set of strings: the elements are distinct, so the
    result does not depend on the order in which the set yields them. *)
Definition sorted_entries (entries : gset string) : list string :=
  sorted_str (fun x => x) (elements entries).

(** The entries of the output file before the run. *)
Definition existing_entries (output_text : string) : M (gset string) :=
  found <- path_exists output_text ;;
  if found then
    content <- read_text output_text ;;
    ret (read_entries content)
  else ret ∅.

(** The same set, read off a world without running anything. *)
Definition entries_on_disk (w : World) (output_text : string) : gset string :=
  match file_text w output_text with
  | Some content => read_entries content
  | None => ∅
  end.

Definition extract_and_merge (input_yaml output_text : string)
    (compressed_output : option string)
    (extract_func : Value -> Outcome (list string))
    (blob_constant blobs_js_path : option string) : M unit :=
  text <- read_text input_yaml ;;
  match yaml_safe_load text with
  | None => raise YAMLError
  | Some data =>
      extracted <- lift (extract_func data) ;;
      let new_entries : gset string := list_to_set extracted in
      existing_entries <- existing_entries output_text ;;
      let initial_count := Z.of_nat (size existing_entries) in
      let all_entries := existing_entries ∪ new_entries in
      let added_count := (Z.of_nat (size all_entries) - initial_count)%Z in
      let all_entries := sorted_entries all_entries in
      if Z.eqb added_count 0 then ret tt else
      write_text output_text
        (String.concat "" (map (fun entry => entry +:+ nl) all_entries)) ;;;
      let joined := join "," all_entries in
      let b64 := compress_b64 joined in
      let compressed_output :=
        if given compressed_output then or_empty compressed_output
        else rsplit_dot output_text +:+ "_compressed.txt" in
      write_text compressed_output b64 ;;;
      if given blob_constant && given blobs_js_path && has_update_blobs then
        update_blob_constant (or_empty blobs_js_path) (or_empty blob_constant) b64 ;;;
        ret tt
      else ret tt
  end.

(** What [set(x)] holds when its elements are to be written as lines: the
    strings of a list, the characters of a string, the keys of a dict.  A
    list with a scalar that is no string leaves the model. *)
Definition set_elements (x : Value) : Outcome (list string) :=
  match x with
  | VList items =>
      fold_right
        (fun item acc =>
           match item, acc with
           | VScalar (SStr s), Ok l => Ok (s :: l)
           | VScalar (SStr _), Raise e => Raise e
           | VScalar _, _ => Raise Unmodelled
           | _, _ => Raise TypeError
           end)
        (Ok []) items
  | VScalar (SStr s) => Ok (map (fun c => String c "") (list_ascii_of_string s))
  | VScalar _ => Raise TypeError
  | VMap entries => Ok (keys entries)
  end.

Definition extract_locations_from_yaml (data : Value) : Outcome (list string) :=
  match py_getitem data "gbx_discovery_pg" with
  | Raise e => Raise e
  | Ok pg =>
      match py_getitem pg "dlblob" with
      | Raise e => Raise e
      | Ok (VScalar (SStr dlblob)) =>
          Ok (filter (fun loc => nonempty loc) (re_split ":\d:" dlblob))
      | Ok _ => Raise TypeError
      end
  end.

Definition extract_rewards_from_yaml (data : Value) : Outcome (list string) :=
  match py_get data "state" (VMap []) with
  | Raise e => Raise e
  | Ok state =>
      match py_get state "unique_rewards" (VList []) with
      | Raise e => Raise e
      | Ok rewards => set_elements rewards
      end
  end.

Record ListArgs : Type := {
  inputyaml : string;
  outputtext : string;
  compressed : option string;
  rewards : bool;
  el_blobs_js : option string
}.

(** The [__main__] block of [extract_lists.py], after argument parsing. *)
Definition extract_lists_main (args : ListArgs) : M unit :=
  if rewards args then
    extract_and_merge (inputyaml args) (outputtext args) (compressed args)
      extract_rewards_from_yaml
      (if given (el_blobs_js args) then Some "REWARDS_COMPRESSED" else None)
      (el_blobs_js args)
  else
    extract_and_merge (inputyaml args) (outputtext args) (compressed args)
      extract_locations_from_yaml
      (if given (el_blobs_js args) then Some "LOCATIONS_COMPRESSED" else None)
      (el_blobs_js args).

End Scripts.

(** Stand-ins for the external libraries, used only to run the scripts on
    concrete worlds: every document parses to [toy_document], the codec
    steps copy their input, and a pattern is found when its text occurs. *)
Definition toy_document : Value :=
  VMap [("stats", VMap [("openworld", VMap [("collectibles",
          VMap [("Vault", VList [str "b"; str "A"])])])])].

Fixpoint is_prefix (p s : string) : bool :=
  match p, s with
  | EmptyString, _ => true
  | String a p', String b s' => Ascii.eqb a b && is_prefix p' s'
  | String _ _, EmptyString => false
  end.

Fixpoint occurs (p s : string) : bool :=
  is_prefix p s
  || match s with
     | EmptyString => false
     | String _ s' => occurs p s'
     end.

Definition toy_libs : Libs := {|
  yaml_safe_load := fun _ => Some toy_document;
  yaml_safe_dump := py_repr;
  utf8_encode := String.list_byte_of_string;
  zlib_compress := fun b => b;
  b64encode := fun b => b;
  ascii_decode := String.string_of_list_byte;
  path_without_suffix := rsplit_dot;
  resolve_from_script_dir := fun p => p;
  re_escape := fun s => s;
  re_search := occurs;
  re_sub := fun _ _ s => Some s;
  re_split := fun _ s => [s];
  has_update_blobs := true
|}.

(** A run that extracts the collectibles, compresses them and publishes. *)
Definition collectibles_args : Args := {|
  input := "save.yaml";
  missions_out := None;
  missions_comp := false;
  collectibles_out := Some "data/collectibles.yaml";
  collectibles_comp := true;
  unlockables_out := None;
  unlockables_comp := false;
  blobs_js := Some "assets/blobs.js"
|}.

(** ** Further notions *)

(** A canonical tree: at every depth the keys of a mapping are sorted
    case-insensitively and the elements of a list are sorted by their
    lowercased rendering. *)
Fixpoint fully_sorted (v : Value) : bool :=
  match v with
  | VScalar _ => true
  | VList items => sortedb render items && forallb fully_sorted items
  | VMap entries =>
      keys_sorted entries && forallb (fun '(_, x) => fully_sorted x) entries
  end.

(** What the loop body of [merge_yaml] stores under a key that both sides
    have. *)
Definition merged_value (old_val new_val : Value) : Value :=
  match old_val, new_val with
  | VMap old_entries, VMap new_entries =>
      VMap (merge_yaml old_entries new_entries)
  | VList old_items, VList new_items => VList (merge_lists old_items new_items)
  | VScalar _, _ => new_val
  | _, _ => old_val
  end.

(** What [extract_missionsets] keeps of one mission set: a mapping with the
    same keys in the same order and the same value under each key, except
    that a [missions] mapping holds the same items in increasing order of
    their keys. *)
Definition copied_missionset (missionset copy : Value) : Prop :=
  exists entries copied,
    missionset = VMap entries /\ copy = VMap copied
    /\ keys copied = keys entries
    /\ (forall k, k <> "missions" -> dict_get k copied = dict_get k entries)
    /\ match dict_get "missions" entries with
       | Some (VMap missions) =>
           exists sorted_missions,
             dict_get "missions" copied = Some (VMap sorted_missions)
             /\ Permutation sorted_missions missions
             /\ sortedb (fun kv => fst kv) sorted_missions = true
       | other => dict_get "missions" copied = other
       end.

Definition lf : ascii := ascii_of_N 10.
Definition cr : ascii := ascii_of_N 13.

(** The text [extract_and_merge] writes for a list of entries: each entry
    followed by a line feed. *)
Definition lines_text (entries : list string) : string :=
  String.concat "" (map (fun entry => entry +:+ nl) entries).

(** An entry that a line of a text file can hold: not empty, no white space
    at either end, no line break inside. *)
Definition clean_entry (s : string) : bool :=
  nonempty s && String.eqb (py_strip s) s
  && negb (contains_char lf s) && negb (contains_char cr s).

Section PipelineNotions.
Context {L : Libs}.

(** The path of the compressed file of a run of [extract_and_merge]. *)
Definition compressed_path (output_text : string)
    (compressed_output : option string) : string :=
  if given compressed_output then or_empty compressed_output
  else rsplit_dot output_text +:+ "_compressed.txt".

(** The world after the two writes of a run that found new entries. *)
Definition after_writes (w : World) (output_text : string)
    (compressed_output : option string) (extracted : list string) : World :=
  let all_entries :=
    sorted_entries (entries_on_disk w output_text ∪ list_to_set extracted) in
  {| files :=
       <[compressed_path output_text compressed_output :=
           compress_b64 (join "," all_entries)]>
         (<[output_text := lines_text all_entries]> (files w));
     written :=
       written w ++ [output_text;
                     compressed_path output_text compressed_output] |}.

(** The document [write_yaml_and_compressed] is about to write: [obj]
    itself when there is no output file yet, else the merge of [obj] into
    the document the file holds ([{}] for a document that is false). *)
Definition document_to_write (w : World) (output_yaml : string) (obj : Value)
  : Outcome Value :=
  if nonempty output_yaml then
    match file_text w output_yaml with
    | Some text =>
        match yaml_safe_load text with
        | None => Raise YAMLError
        | Some loaded =>
            merge_yaml_any (if py_truthy loaded then loaded else VMap []) obj
        end
    | None => Ok obj
    end
  else Ok obj.

End PipelineNotions.

(** A canonical collectibles mapping, and stand-in libraries whose parser
    returns it for every text; used only to run a second call on a concrete
    world. *)
Definition canonical_collectibles : dict Value :=
  [("Vault", VList [str "A"; str "b"]); ("zones", VMap [("x", int 1)])].

Definition canonical_libs : Libs := {|
  yaml_safe_load := fun _ => Some (VMap canonical_collectibles);
  yaml_safe_dump := py_repr;
  utf8_encode := String.list_byte_of_string;
  zlib_compress := fun b => b;
  b64encode := fun b => b;
  ascii_decode := String.string_of_list_byte;
  path_without_suffix := rsplit_dot;
  resolve_from_script_dir := fun p => p;
  re_escape := fun s => s;
  re_search := occurs;
  re_sub := fun _ _ s => Some s;
  re_split := fun _ s => [s];
  has_update_blobs := true
|}.

(** ** The interpreter's limits on [str()]

    [py_str x] is what [str(x)] returns when it returns.  It does not always
    return: CPython refuses to render an [int] of more than
    [sys.get_int_max_str_digits()] decimal digits, 4300 unless configured
    otherwise, with a [ValueError] (such an [int] is the value of a long
    hexadecimal literal, which is read without that limit), and it gives up on
    a value nested too deeply with a [RecursionError].  In [sort_dict] the
    exception leaves the function, [except TypeError] not catching it, so
    [sort_dict] above is the function computed whenever the call returns.
    [merge_lists] catches it, with [except Exception], and returns the append
    order: [merge_lists_checked] is [merge_lists] with this case written out,
    for an interpreter given by the values its [str] renders, and
    [merge_lists] is the function computed as long as the elements are
    rendered. *)

Section StrLimits.
Variable str_returns : Value -> bool.

(** [str(x)]; [None] stands for the exception raised outside the limits. *)
Definition py_str_checked (x : Value) : option string :=
  if str_returns x then Some (py_str x) else None.

(** The sort key [lambda x: str(x).lower()]. *)
Definition render_key_checked (x : Value) : option Value :=
  match py_str_checked x with
  | Some s => Some (VScalar (SStr (lower s)))
  | None => None
  end.

(** [sorted(l, key=key)] with a key function that may raise: the key of each
    element is computed first, in the order of the list, and the list is then
    sorted on the computed keys.  [None] when a key or a comparison raises. *)
Fixpoint decorate {A : Type} (key : A -> option Value) (l : list A)
  : option (list (Value * A)) :=
  match l with
  | [] => Some []
  | x :: l' =>
      match key x with
      | None => None
      | Some k =>
          match decorate key l' with
          | None => None
          | Some keyed => Some ((k, x) :: keyed)
          end
      end
  end.

Definition py_sorted_checked {A : Type} (key : A -> option Value) (l : list A)
  : option (list A) :=
  match decorate key l with
  | None => None
  | Some keyed =>
      match py_sorted fst keyed with
      | Some s => Some (map snd s)
      | None => None
      end
  end.

Definition merge_lists_checked (old_list new_list : list Value) : list Value :=
  if forallb is_str (old_list ++ new_list) then
    sorted_str str_lower (values (lower_index old_list new_list))
  else
    let merged := append_unique old_list new_list in
    match py_sorted_checked render_key_checked merged with
    | Some s => s
    | None => merged
    end.
End StrLimits.

(** The default of [sys.get_int_max_str_digits()]. *)
Definition int_max_str_digits : Z := 4300%Z.

(** The values in which no [int] has more decimal digits than that: [str]
    and [repr] render the elements of a list and the values of a dict, and a
    [str], a [bool] or [None] is always rendered. *)
Fixpoint within_int_max_str_digits (v : Value) : bool :=
  match v with
  | VScalar (SInt n) => (Z.abs n <? 10 ^ int_max_str_digits)%Z
  | VScalar _ => true
  | VList items => forallb within_int_max_str_digits items
  | VMap entries => forallb (fun '(_, x) => within_int_max_str_digits x) entries
  end.

(** The value of the hexadecimal literal made of a one and 4000 zeros. *)
Definition long_hex_int : Z := (16 ^ 4000)%Z.
(** ** Order facts on strings *)

Lemma compare_refl (s : string) : String.compare s s = Eq.
Proof.
  pose proof (String.compare_antisym s s) as H.
  destruct (String.compare s s); simpl in H; congruence.
Qed.

Lemma ltb_irrefl (s : string) : String.ltb s s = false.
Proof. unfold String.ltb. now rewrite compare_refl. Qed.

Lemma ltb_asym (a b : string) : String.ltb a b = true -> String.ltb b a = false.
Proof.
  unfold String.ltb. rewrite (String.compare_antisym b a).
  destruct (String.compare a b); simpl; congruence.
Qed.

Lemma leb_ltb (a b : string) : String.leb a b = negb (String.ltb b a).
Proof.
  unfold String.leb, String.ltb. rewrite (String.compare_antisym b a).
  now destruct (String.compare a b).
Qed.

(** ** Facts on the stable sort *)

Section SortingFacts.
Context {A : Type} (key : A -> string).

Lemma sortedb_cons x l :
  sortedb key (x :: l) = true ->
  sortedb key l = true.
Proof. destruct l as [|y l]; simpl; [done|]. now intros [_ ?]%andb_prop. Qed.

Lemma insert_str_head x l :
  exists l', insert_str key x l = x :: l' \/
             (exists y l0, l = y :: l0 /\ insert_str key x l = y :: l'
                           /\ String.ltb (key y) (key x) = true).
Proof.
  destruct l as [|y l]; simpl; [by eexists; left|].
  destruct (String.ltb (key y) (key x)) eqn:E.
  - eexists. right. by exists y, l.
  - eexists. by left.
Qed.

Lemma insert_str_sorted x l :
  sortedb key l = true -> sortedb key (insert_str key x l) = true.
Proof.
  induction l as [|y l IH]; simpl; [done|]. intros Hs.
  destruct (String.ltb (key y) (key x)) eqn:E.
  - specialize (IH (sortedb_cons _ _ Hs)).
    destruct l as [|z l]; simpl in *.
    + rewrite leb_ltb, (ltb_asym _ _ E). done.
    + destruct (String.ltb (key z) (key x)) eqn:E'.
      * apply andb_prop in Hs as [-> _]. exact IH.
      * rewrite leb_ltb, (ltb_asym _ _ E). exact IH.
  - change (String.leb (key x) (key y) && sortedb key (y :: l) = true).
    rewrite leb_ltb, E. exact Hs.
Qed.

Lemma sorted_str_sorted l : sortedb key (sorted_str key l) = true.
Proof. induction l; simpl; [done|]. by apply insert_str_sorted. Qed.

(** Sorting a sorted list changes nothing: the sort is stable, so equal
    keys keep their order. *)
Lemma sorted_str_id l : sortedb key l = true -> sorted_str key l = l.
Proof.
  induction l as [|x l IH]; simpl; [done|]. intros Hs.
  rewrite (IH (sortedb_cons _ _ Hs)).
  destruct l as [|y l]; simpl in *; [done|].
  apply andb_prop in Hs as [Hxy _]. rewrite leb_ltb in Hxy.
  by destruct (String.ltb (key y) (key x)).
Qed.

Lemma sorted_str_idem l : sorted_str key (sorted_str key l) = sorted_str key l.
Proof. apply sorted_str_id, sorted_str_sorted. Qed.

Lemma insert_str_perm x l : Permutation (insert_str key x l) (x :: l).
Proof.
  induction l as [|y l IH]; simpl; [done|].
  destruct (String.ltb (key y) (key x)); [|done].
  rewrite IH. apply perm_swap.
Qed.

Lemma sorted_str_perm l : Permutation (sorted_str key l) l.
Proof.
  induction l as [|x l IH]; simpl; [done|].
  rewrite insert_str_perm. by constructor.
Qed.

Lemma sorted_str_elem x l : x ∈ sorted_str key l <-> x ∈ l.
Proof. by rewrite sorted_str_perm. Qed.

(** Only the keys of the elements present matter. *)
Lemma sorted_str_ext (key' : A -> string) l :
  Forall (fun x => key x = key' x) l -> sorted_str key l = sorted_str key' l.
Proof.
  induction 1 as [|x l Hx Hl IH]; simpl; [done|]. rewrite <- IH.
  assert (Forall (fun y => key y = key' y) (sorted_str key l)) as Hl'.
  { rewrite Forall_forall in *. intros y Hy. apply Hl.
    by apply sorted_str_elem. }
  clear IH Hl. induction Hl' as [|y r Hy _ IH]; simpl; [done|].
  by rewrite Hx, Hy, IH.
Qed.

(** A sort whose keys are all [str] never raises. *)
Lemma insert_key_str x l :
  insert_key (fun y => VScalar (SStr (key y))) x l = Some (insert_str key x l).
Proof.
  induction l as [|y l IH]; simpl; [done|].
  destruct (String.ltb (key y) (key x)); [|done]. by rewrite IH.
Qed.

Lemma py_sorted_str l :
  py_sorted (fun y => VScalar (SStr (key y))) l = Some (sorted_str key l).
Proof.
  induction l as [|x l IH]; simpl; [done|]. rewrite IH. apply insert_key_str.
Qed.
End SortingFacts.

(** Mapping a key-preserving function commutes with the sort. *)
Lemma sorted_str_map {A B : Type} (key : B -> string) (key' : A -> string)
    (f : A -> B) (l : list A) :
  (forall x, key (f x) = key' x) ->
  map f (sorted_str key' l) = sorted_str key (map f l).
Proof.
  intros Hk. induction l as [|x l IH]; simpl; [done|]. rewrite <- IH.
  generalize (sorted_str key' l) as r. intros r.
  induction r as [|y r IHr]; simpl; [done|].
  rewrite !Hk. destruct (String.ltb (key' y) (key' x)); simpl; [|done].
  by rewrite IHr.
Qed.

Lemma py_sorted_render (l : list Value) :
  py_sorted render_key l = Some (sorted_str render l).
Proof. apply (py_sorted_str render). Qed.

(** ** The canonicaliser *)

Lemma sort_dict_list (items : list Value) :
  sort_dict (VList items) = VList (sorted_str render (map sort_dict items)).
Proof. simpl. by rewrite py_sorted_render. Qed.

Lemma sort_dict_map (entries : dict Value) :
  sort_dict (VMap entries)
  = VMap (sorted_str item_key (map (fun '(k, v) => (k, sort_dict v)) entries)).
Proof. reflexivity. Qed.

Lemma sort_dict_idem (v : Value) : sort_dict (sort_dict v) = sort_dict v.
Proof.
  induction v as [s|items IH|entries IH] using Value_ind.
  - reflexivity.
  - rewrite sort_dict_list. set (m := map sort_dict items).
    rewrite sort_dict_list. f_equal.
    assert (map sort_dict (sorted_str render m) = sorted_str render m) as ->.
    { rewrite <- (map_id (sorted_str render m)) at 2. apply map_ext_in.
      intros x Hx%list_elem_of_In%sorted_str_elem. subst m.
      apply list_elem_of_In, in_map_iff in Hx as (y & <- & Hy%list_elem_of_In).
      rewrite Forall_forall in IH. by apply IH. }
    apply sorted_str_idem.
  - rewrite sort_dict_map.
    set (F := fun '(k, v) => (k, sort_dict v) : string * Value).
    set (m := map F entries). rewrite sort_dict_map. fold F. f_equal.
    rewrite (sorted_str_map item_key item_key F); [|by intros [k v]].
    rewrite sorted_str_idem. f_equal. subst m. rewrite map_map.
    apply map_ext_in. intros [k v] Hkv%list_elem_of_In. unfold F. f_equal.
    rewrite Forall_forall in IH. by apply (IH (k, v)).
Qed.

Lemma scalars_sort_dict (v : Value) : Permutation (scalars (sort_dict v)) (scalars v).
Proof.
  induction v as [s|items IH|entries IH] using Value_ind.
  - reflexivity.
  - rewrite sort_dict_list. simpl.
    rewrite (Permutation_flat_map scalars (sorted_str_perm render _)).
    induction IH as [|x l Hx _ IHl]; simpl; [done|]. by apply Permutation_app.
  - rewrite sort_dict_map. simpl.
    rewrite (Permutation_flat_map _ (sorted_str_perm item_key _)).
    induction IH as [|[k x] l Hx _ IHl]; simpl; [done|].
    by apply Permutation_app.
Qed.

(** ** The list merger *)

Lemma merge_lists_fallback (old_list new_list : list Value) :
  forallb is_str (old_list ++ new_list) = false ->
  merge_lists old_list new_list
  = sorted_str render (append_unique old_list new_list).
Proof. intros H. unfold merge_lists. by rewrite H, py_sorted_render. Qed.

(** ** Dictionaries as association lists *)

Lemma distinct_NoDup (l : list string) : distinct l = true <-> NoDup l.
Proof.
  induction l as [|x l IH]; simpl.
  - split; [constructor|done].
  - rewrite NoDup_cons, andb_true_iff, negb_true_iff, IH.
    assert (existsb (String.eqb x) l = false <-> x ∉ l) as ->; [|done].
    rewrite <- not_true_iff_false, existsb_exists. split.
    + intros H Hx. apply H. exists x. split; [by apply list_elem_of_In|].
      apply String.eqb_refl.
    + intros H (y & Hy & ->%String.eqb_eq). by apply H, list_elem_of_In.
Qed.

Section DictFacts.
Context {A : Type}.
Implicit Types (d : dict A) (k : string) (v : A).

Lemma dict_get_set k k' v d :
  dict_get k (dict_set k' v d)
  = if String.eqb k k' then Some v else dict_get k d.
Proof.
  induction d as [|[k0 v0] d IH]; simpl; [done|].
  destruct (String.eqb k' k0) eqn:E; simpl.
  - apply String.eqb_eq in E as ->. by destruct (String.eqb k k0).
  - rewrite IH. destruct (String.eqb k k0) eqn:E'; [|done].
    apply String.eqb_eq in E' as ->. by rewrite String.eqb_sym, E.
Qed.

Lemma dict_get_set_eq k v d : dict_get k (dict_set k v d) = Some v.
Proof. by rewrite dict_get_set, String.eqb_refl. Qed.

Lemma dict_get_set_ne k k' v d :
  k <> k' -> dict_get k (dict_set k' v d) = dict_get k d.
Proof.
  intros H. rewrite dict_get_set.
  by destruct (String.eqb_spec k k').
Qed.

Lemma dict_get_None k d : dict_get k d = None <-> k ∉ keys d.
Proof.
  induction d as [|[k0 v0] d IH]; simpl.
  - split; [intros _ H; inversion H|done].
  - rewrite not_elem_of_cons, <- IH.
    destruct (String.eqb_spec k k0) as [->|Hne]; [split; [done|by intros []]|].
    split; [by intros ?|by intros [_ ?]].
Qed.

Lemma dict_get_Some_elem k v d : dict_get k d = Some v -> (k, v) ∈ d.
Proof.
  induction d as [|[k0 v0] d IH]; simpl; [done|].
  destruct (String.eqb_spec k k0) as [->|].
  - intros [= ->]. left.
  - intros H. right. by apply IH.
Qed.

Lemma dict_get_elem k v d :
  NoDup (keys d) -> (k, v) ∈ d -> dict_get k d = Some v.
Proof.
  induction d as [|[k0 v0] d IH]; simpl; [by intros _ H; inversion H|].
  intros [Hk0 Hd]%NoDup_cons [[= -> ->]|Hin]%elem_of_cons.
  - by rewrite String.eqb_refl.
  - destruct (String.eqb_spec k k0) as [->|]; [|by apply IH].
    exfalso. apply Hk0. unfold keys.
    apply list_elem_of_In, in_map_iff. exists (k0, v).
    split; [done|by apply list_elem_of_In].
Qed.

Lemma keys_dict_set k v d :
  keys (dict_set k v d) = if dict_has k d then keys d else keys d ++ [k].
Proof.
  unfold dict_has. induction d as [|[k0 v0] d IH]; simpl; [done|].
  rewrite (String.eqb_sym k k0).
  destruct (String.eqb k0 k) eqn:E; simpl; [done|]. rewrite IH.
  by destruct (dict_get k d).
Qed.

Lemma NoDup_keys_dict_set k v d : NoDup (keys d) -> NoDup (keys (dict_set k v d)).
Proof.
  intros H. rewrite keys_dict_set. unfold dict_has.
  destruct (dict_get k d) eqn:E; [done|].
  apply NoDup_app. split_and!; [done| |apply NoDup_singleton].
  intros x Hx ->%list_elem_of_singleton. by apply dict_get_None in E.
Qed.

Lemma values_dict_set_subset k v d x :
  x ∈ values (dict_set k v d) -> x = v \/ x ∈ values d.
Proof.
  unfold values. induction d as [|[k0 v0] d IH]; simpl.
  - intros ->%list_elem_of_singleton. by left.
  - destruct (String.eqb k k0); simpl; rewrite !elem_of_cons.
    + intros [->|?]; auto.
    + intros [->|?]; auto. destruct IH; auto.
Qed.
End DictFacts.

(** ** The list merger, all-[str] branch *)

Lemma forallb_is_str (l : list string) : forallb is_str (map str l) = true.
Proof. by induction l. Qed.

Lemma index_existing (existing : list string) (acc : dict Value) (k : string) :
  dict_get k (fold_left (fun m x => dict_set (str_lower x) x m)
                        (map str existing) acc)
  = match last_with k existing with
    | Some y => Some (str y)
    | None => dict_get k acc
    end.
Proof.
  revert acc. induction existing as [|x l IH]; intros acc; simpl; [done|].
  rewrite IH. destruct (last_with k l); [done|].
  rewrite dict_get_set, (String.eqb_sym k). by destruct (String.eqb (lower x) k).
Qed.

Lemma index_incoming (incoming : list string) (acc : dict Value) (k : string) :
  dict_get k (fold_left (fun m x => let lk := str_lower x in
                                    if dict_has lk m then m else dict_set lk x m)
                        (map str incoming) acc)
  = match dict_get k acc with
    | Some y => Some y
    | None => option_map str (first_with k incoming)
    end.
Proof.
  revert acc. induction incoming as [|x l IH]; intros acc; simpl.
  - by destruct (dict_get k acc).
  - rewrite IH. unfold dict_has.
    destruct (dict_get (lower x) acc) eqn:E.
    + destruct (dict_get k acc) eqn:E'; [done|].
      destruct (String.eqb_spec (lower x) k) as [<-|]; [congruence|done].
    + rewrite dict_get_set, (String.eqb_sym k).
      destruct (String.eqb_spec (lower x) k) as [<-|]; [by rewrite E|done].
Qed.

Lemma lower_index_get (existing incoming : list string) (k : string) :
  dict_get k (lower_index (map str existing) (map str incoming))
  = option_map str (kept_casing existing incoming k).
Proof.
  unfold lower_index, kept_casing. rewrite index_incoming, index_existing.
  simpl. by destruct (last_with k existing).
Qed.

Lemma index_ok_set (x : Value) (m : dict Value) :
  index_ok m -> index_ok (dict_set (str_lower x) x m).
Proof.
  intros [Hk Hv]. split; [by apply NoDup_keys_dict_set|].
  clear Hk. induction Hv as [|[k v] m Hkv Hm IH]; simpl.
  - by repeat constructor.
  - destruct (String.eqb_spec (str_lower x) k) as [E|]; by constructor.
Qed.

Lemma lower_index_ok (old_list new_list : list Value) :
  index_ok (lower_index old_list new_list).
Proof.
  unfold lower_index.
  assert (index_ok ([] : dict Value)) as H0 by (split; constructor).
  revert H0. generalize ([] : dict Value) as acc.
  induction old_list as [|x l IH]; intros acc Hacc; simpl.
  - revert acc Hacc. induction new_list as [|y l' IH']; intros acc Hacc; simpl.
    + done.
    + apply IH'. destruct (dict_has (str_lower y) acc); [done|].
      by apply index_ok_set.
  - by apply IH, index_ok_set.
Qed.

Lemma index_ok_keys (m : dict Value) :
  index_ok m -> map str_lower (values m) = keys m.
Proof.
  intros [_ Hv]. unfold values, keys.
  induction Hv as [|[k v] m Hkv _ IH]; simpl; [done|]. by rewrite Hkv, IH.
Qed.

Lemma merge_lists_strs (existing incoming : list string) :
  merge_lists (map str existing) (map str incoming)
  = sorted_str str_lower
      (values (lower_index (map str existing) (map str incoming))).
Proof.
  unfold merge_lists. by rewrite <- map_app, forallb_is_str.
Qed.

Lemma kept_casing_lower (existing incoming : list string) (k x : string) :
  kept_casing existing incoming k = Some x -> lower x = k.
Proof.
  assert (forall l, first_with k l = Some x -> lower x = k) as Hf.
  { induction l as [|y l IH]; simpl; [done|].
    destruct (String.eqb_spec (lower y) k); [congruence|done]. }
  assert (forall l, last_with k l = Some x -> lower x = k) as Hl.
  { induction l as [|y l IH]; simpl; [done|].
    destruct (last_with k l); [exact IH|].
    destruct (String.eqb_spec (lower y) k); [congruence|done]. }
  unfold kept_casing. destruct (last_with k existing) eqn:E; [|apply Hf].
  intros [= ->]. by apply (Hl existing).
Qed.

Lemma values_elem {A : Type} (d : dict A) (v : A) :
  NoDup (keys d) -> v ∈ values d <-> exists k, dict_get k d = Some v.
Proof.
  intros Hd. unfold values. rewrite list_elem_of_In, in_map_iff. split.
  - intros ([k w] & <- & Hin%list_elem_of_In). exists k. by apply dict_get_elem.
  - intros [k Hk%dict_get_Some_elem]. exists (k, v).
    split; [done|by apply list_elem_of_In].
Qed.

Lemma merge_lists_subset (old_list new_list : list Value) (x : Value) :
  x ∈ merge_lists old_list new_list -> x ∈ old_list \/ x ∈ new_list.
Proof.
  unfold merge_lists. destruct (forallb is_str (old_list ++ new_list)).
  - intros Hx%sorted_str_elem. revert Hx. unfold lower_index.
    assert (forall (l : list Value) (g : dict Value -> Value -> bool) acc,
      x ∈ values (fold_left (fun m y => if g m y then m
                                        else dict_set (str_lower y) y m) l acc) ->
      x ∈ values acc \/ x ∈ l) as Hfold.
    { induction l as [|y l IH]; intros g acc; simpl; [by left|].
      intros [H|H]%IH; [|by right; right].
      destruct (g acc y); [by left|].
      apply values_dict_set_subset in H as [-> |H]; [right; left|by left]. }
    intros [H|H]%(Hfold new_list (fun m y => dict_has (str_lower y) m));
      [|by right].
    apply (Hfold old_list (fun _ _ => false)) in H as [H|H]; [|by left].
    inversion H.
  - rewrite py_sorted_render. intros Hx%sorted_str_elem. revert Hx.
    unfold append_unique. generalize old_list as acc.
    induction new_list as [|y l IH]; intros acc; simpl; [by left|].
    intros [H|H]%IH; [|by right; right].
    destruct (existsb _ acc); [by left|].
    apply elem_of_app in H as [H| ->%list_elem_of_singleton]; [by left|].
    right; left.
Qed.

(** ** The mapping merger *)

Lemma merge_yaml_items (existing new : dict Value) :
  merge_yaml existing new = sort_items (merge_items existing new).
Proof. reflexivity. Qed.

(** The loop body, with the recursive call spelled as in the source. *)
Lemma merge_key_eq (existing : dict Value) (key : string) (new_val : Value) :
  merge_key existing key new_val
  = match dict_get key existing with
    | Some old_val =>
        match old_val, new_val with
        | VMap old_entries, VMap new_entries =>
            dict_set key (VMap (merge_yaml old_entries new_entries)) existing
        | VList old_items, VList new_items =>
            dict_set key (VList (merge_lists old_items new_items)) existing
        | VScalar _, _ => dict_set key new_val existing
        | _, _ => existing
        end
    | None => dict_set key new_val existing
    end.
Proof.
  destruct new_val as [s|items|entries]; simpl;
    destruct (dict_get key existing) as [[s'|items'|entries']|]; try reflexivity.
  do 3 f_equal. unfold merge_items.
  revert entries'. induction entries as [|[k v] rest IH]; intros ex; simpl; [done|].
  apply IH.
Qed.

Lemma merge_key_get_ne (existing : dict Value) (key k : string) (v : Value) :
  key <> k -> dict_get key (merge_key existing k v) = dict_get key existing.
Proof.
  intros Hne. rewrite merge_key_eq.
  destruct (dict_get k existing) as [[s|items|entries]|];
    destruct v; rewrite ?dict_get_set_ne; done.
Qed.

Lemma merge_items_get_notin (existing new : dict Value) (key : string) :
  key ∉ keys new ->
  dict_get key (merge_items existing new) = dict_get key existing.
Proof.
  unfold merge_items. revert existing.
  induction new as [|[k v] rest IH]; intros ex; simpl; [done|].
  intros [Hne Hrest]%not_elem_of_cons. rewrite IH by done.
  by apply merge_key_get_ne.
Qed.

Lemma dict_get_insert_str (key : string) (kv : string * Value) (d : dict Value) :
  dict_get key (insert_str item_key kv d) = dict_get key (kv :: d).
Proof.
  destruct kv as [k v]. induction d as [|[k0 v0] d IH]; simpl; [done|].
  unfold item_key at 1 2. simpl.
  destruct (String.ltb (lower k0) (lower k)) eqn:E; [|done].
  simpl in *. rewrite IH.
  destruct (String.eqb_spec key k) as [->|]; [|done].
  destruct (String.eqb_spec k k0) as [->|]; [|done].
  by rewrite ltb_irrefl in E.
Qed.

Lemma dict_get_sort_items (key : string) (d : dict Value) :
  dict_get key (sort_items d) = dict_get key d.
Proof.
  unfold sort_items. induction d as [|[k v] d IH]; simpl; [done|].
  rewrite dict_get_insert_str. simpl. by rewrite IH.
Qed.

Lemma dict_get_split {A : Type} (k : string) (v : A) (d : dict A) :
  dict_get k d = Some v ->
  exists pre post, d = pre ++ (k, v) :: post /\ k ∉ keys pre.
Proof.
  induction d as [|[k0 v0] d IH]; simpl; [done|].
  destruct (String.eqb_spec k k0) as [->|Hne].
  - intros [= ->]. exists [], d. split; [done|]. by intros H; inversion H.
  - intros (pre & post & -> & Hpre)%IH. exists ((k0, v0) :: pre), post.
    split; [done|]. simpl. by apply not_elem_of_cons.
Qed.

(** What the merge leaves under a key that both sides have. *)
Lemma merge_yaml_get (existing new : dict Value) (key : string)
    (old_val new_val : Value) :
  NoDup (keys new) ->
  dict_get key existing = Some old_val ->
  dict_get key new = Some new_val ->
  dict_get key (merge_yaml existing new)
  = dict_get key (merge_key [(key, old_val)] key new_val).
Proof.
  intros Hnd Hold (pre & post & -> & Hpre)%dict_get_split.
  rewrite merge_yaml_items, dict_get_sort_items. unfold merge_items.
  rewrite fold_left_app. simpl.
  fold (merge_items existing pre).
  fold (merge_items (merge_key (merge_items existing pre) key new_val) post).
  unfold keys in Hnd. rewrite map_app in Hnd. simpl in Hnd.
  apply NoDup_app in Hnd as (_ & _ & [Hpost _]%NoDup_cons).
  rewrite merge_items_get_notin by done.
  pose proof (merge_items_get_notin existing pre key Hpre) as Hget.
  rewrite Hold in Hget. rewrite !merge_key_eq, Hget. simpl.
  rewrite String.eqb_refl.
  destruct old_val, new_val; simpl; rewrite ?dict_get_set_eq, ?String.eqb_refl;
    done.
Qed.

(** ** Sorted keys through the merge *)

Lemma Forall_dict_set {A : Type} (Q : A -> Prop) (k : string) (v : A) (d : dict A) :
  Forall (fun kv => Q (snd kv)) d -> Q v ->
  Forall (fun kv => Q (snd kv)) (dict_set k v d).
Proof.
  intros Hd Hv. induction Hd as [|[k0 v0] d H0 Hd IH]; simpl.
  - by repeat constructor.
  - destruct (String.eqb k k0); by constructor.
Qed.

Lemma Forall_dict_get {A : Type} (Q : A -> Prop) (k : string) (v : A) (d : dict A) :
  Forall (fun kv => Q (snd kv)) d -> dict_get k d = Some v -> Q v.
Proof.
  intros Hd Hk%dict_get_Some_elem. rewrite Forall_forall in Hd.
  by apply (Hd (k, v)).
Qed.

Lemma forallb_values (f : Value -> bool) (d : dict Value) :
  forallb (fun '(_, x) => f x) d = true
  <-> Forall (fun kv => f (snd kv) = true) d.
Proof.
  induction d as [|[k v] d IH]; simpl.
  - split; [constructor|done].
  - rewrite andb_true_iff, Forall_cons, IH. done.
Qed.

Local Ltac dict_set_sorted :=
  apply (Forall_dict_set (fun x => all_sorted x = true)).

Lemma all_sorted_merge_key (new_val : Value) :
  forall (existing : dict Value) (key : string),
    Forall (fun kv => all_sorted (snd kv) = true) existing ->
    all_sorted new_val = true ->
    Forall (fun kv => all_sorted (snd kv) = true) (merge_key existing key new_val).
Proof.
  induction new_val as [s|items _|entries IH] using Value_ind;
    intros existing key Hex Hnew; rewrite merge_key_eq;
    destruct (dict_get key existing) as [old_val|] eqn:Hget;
    try (by dict_set_sorted).
  - destruct old_val; [by dict_set_sorted|done..].
  - destruct old_val as [s|old_items|old_entries];
      [by dict_set_sorted| |done].
    dict_set_sorted; [done|]. simpl. apply forallb_forall.
    pose proof (Forall_dict_get (fun x => all_sorted x = true) _ _ _ Hex Hget) as Hold. simpl in *.
    rewrite forallb_forall in Hold, Hnew.
    intros x [H|H]%list_elem_of_In%merge_lists_subset;
      [apply Hold|apply Hnew]; by apply list_elem_of_In.
  - destruct old_val as [s|old_items|old_entries];
      [by dict_set_sorted|done|].
    dict_set_sorted; [done|].
    pose proof (Forall_dict_get (fun x => all_sorted x = true) _ _ _ Hex Hget) as Hold. simpl in Hold, Hnew.
    apply andb_prop in Hold as [_ Hold%forallb_values].
    apply andb_prop in Hnew as [_ Hnew%forallb_values].
    simpl. apply andb_true_intro.
    split; [apply sorted_str_sorted|]. apply forallb_values.
    unfold merge_yaml, sort_items. rewrite (sorted_str_perm item_key).
    fold (merge_items old_entries entries). unfold merge_items.
    clear Hget. revert old_entries Hold.
    induction IH as [|[k v] rest Hv _ IHrest]; intros ex Hex'; simpl; [done|].
    apply Forall_cons in Hnew as [Hv' Hrest].
    apply IHrest; [done|]. by apply Hv.
Qed.

Lemma all_sorted_merge_items (existing new : dict Value) :
  Forall (fun kv => all_sorted (snd kv) = true) existing ->
  Forall (fun kv => all_sorted (snd kv) = true) new ->
  Forall (fun kv => all_sorted (snd kv) = true) (merge_items existing new).
Proof.
  unfold merge_items. revert existing.
  induction new as [|[k v] rest IH]; intros ex Hex Hnew; simpl; [done|].
  apply Forall_cons in Hnew as [Hv Hrest].
  apply IH; [|done]. by apply all_sorted_merge_key.
Qed.

(** ** Merging a tree with itself *)

Lemma scalar_eq_refl (s : Scalar) : scalar_eq s s = true.
Proof.
  destruct s as [x|n|b|]; simpl;
    [apply String.eqb_refl|apply Z.eqb_refl|by destruct b|done].
Qed.

Lemma py_eq_refl (v : Value) : wf v = true -> py_eq v v = true.
Proof.
  induction v as [s|items IH|entries IH] using Value_ind; intros Hwf.
  - apply scalar_eq_refl.
  - simpl in *. induction IH as [|x l Hx _ IHl]; [done|].
    simpl in Hwf. apply andb_prop in Hwf as [Hwx Hwl].
    by rewrite Hx, IHl.
  - simpl in *. rewrite Nat.eqb_refl. simpl.
    apply andb_prop in Hwf as [Hk%distinct_NoDup Hv%forallb_values].
    assert (forall kv, kv ∈ entries -> kv ∈ entries) as Hsub by done.
    revert Hsub. generalize entries at 1 4 as xs.
    intros xs Hsub. induction xs as [|[k v] xs IHxs]; [done|].
    assert ((k, v) ∈ entries) as Hin by (apply Hsub; left).
    rewrite (dict_get_elem k v entries Hk Hin).
    rewrite Forall_forall in IH, Hv.
    pose proof (IH (k, v) Hin (Hv (k, v) Hin)) as Hvv. simpl in Hvv.
    rewrite Hvv. simpl.
    apply IHxs. intros kv Hkv. apply Hsub. by right.
Qed.

Lemma append_unique_self (l : list Value) :
  Forall (fun x => py_eq x x = true) l -> append_unique l l = l.
Proof.
  intros Hl. unfold append_unique.
  assert (forall new_list, Forall (fun x => x ∈ l) new_list ->
    fold_left (fun merged item =>
                 if existsb (fun e => py_eq item e) merged
                 then merged else merged ++ [item]) new_list l = l) as H.
  { induction 1 as [|x r Hx _ IH]; simpl; [done|].
    assert (existsb (fun e => py_eq x e) l = true) as ->; [|done].
    apply existsb_exists. exists x. split; [by apply list_elem_of_In|].
    rewrite Forall_forall in Hl. by apply Hl. }
  apply H. by apply Forall_forall.
Qed.

Lemma lower_index_self (l : list Value) :
  NoDup (map str_lower l) ->
  lower_index l l = map (fun x => (str_lower x, x)) l.
Proof.
  intros Hnd. unfold lower_index.
  assert (forall pre post, NoDup (map str_lower (pre ++ post)) ->
    fold_left (fun m x => dict_set (str_lower x) x m) post
              (map (fun x => (str_lower x, x)) pre)
    = map (fun x => (str_lower x, x)) (pre ++ post)) as Hold.
  { intros pre post. revert pre.
    induction post as [|x post IH]; intros pre Hpre; simpl.
    - by rewrite app_nil_r.
    - replace (pre ++ x :: post) with ((pre ++ [x]) ++ post) in *
        by by rewrite <- app_assoc.
      rewrite <- IH by done. f_equal. rewrite map_app. simpl.
      rewrite !map_app in Hpre. simpl in Hpre.
      apply NoDup_app in Hpre as [Hpre _]. apply NoDup_app in Hpre as (_ & Hx & _).
      clear IH. induction pre as [|y pre IHp]; simpl; [done|].
      destruct (String.eqb_spec (str_lower x) (str_lower y)) as [E|_].
      + exfalso. apply (Hx (str_lower y)); [left|]. rewrite E. left.
      + f_equal. apply IHp. intros z Hz. apply Hx. by right. }
  specialize (Hold [] l Hnd). simpl in Hold. rewrite Hold.
  assert (forall new_list, Forall (fun x => x ∈ l) new_list ->
    fold_left (fun m x => let lk := str_lower x in
                          if dict_has lk m then m else dict_set lk x m)
              new_list (map (fun x => (str_lower x, x)) l)
    = map (fun x => (str_lower x, x)) l) as Hnew.
  { induction 1 as [|x r Hx _ IH]; simpl; [done|].
    assert (dict_has (str_lower x) (map (fun x => (str_lower x, x)) l) = true)
      as ->; [|done].
    unfold dict_has.
    destruct (dict_get _ _) eqn:E; [done|]. apply dict_get_None in E.
    exfalso. apply E. unfold keys. rewrite map_map. simpl.
    apply list_elem_of_In, in_map_iff. exists x.
    split; [done|by apply list_elem_of_In]. }
  apply Hnew. by apply Forall_forall.
Qed.

Lemma merge_lists_self (l : list Value) :
  list_self_mergeable l -> VList (merge_lists l l) = sort_dict (VList l).
Proof.
  unfold list_self_mergeable. intros Hl. rewrite sort_dict_list. f_equal.
  unfold merge_lists. rewrite forallb_app, andb_diag.
  destruct (forallb is_str l) eqn:Hstr.
  - apply distinct_NoDup in Hl. rewrite (lower_index_self l Hl).
    unfold values. rewrite map_map. simpl. rewrite map_id.
    rewrite forallb_forall in Hstr.
    assert (map sort_dict l = l) as ->.
    { rewrite <- (map_id l) at 2. apply map_ext_in. intros x Hx%Hstr.
      by destruct x as [[]| |]. }
    apply sorted_str_ext, Forall_forall. intros x Hx%list_elem_of_In%Hstr.
    by destruct x as [[]| |].
  - rewrite py_sorted_render.
    rewrite append_unique_self.
    + f_equal. rewrite <- (map_id l) at 1. apply map_ext_in.
      intros x Hx%list_elem_of_In. rewrite Forall_forall in Hl.
      symmetry. by apply Hl.
    + eapply Forall_impl; [exact Hl|]. intros x [Hwf _]. by apply py_eq_refl.
Qed.

Lemma self_mergeable_entries (entries : dict Value) :
  self_mergeable (VMap entries)
  <-> NoDup (keys entries) /\ Forall (fun kv => self_mergeable (snd kv)) entries.
Proof.
  simpl. rewrite distinct_NoDup.
  assert ((fix go (es : list (string * Value)) : Prop :=
             match es with
             | [] => True
             | (_, x) :: es' => self_mergeable x /\ go es'
             end) entries
          <-> Forall (fun kv => self_mergeable (snd kv)) entries) as ->; [|done].
  induction entries as [|[k v] es IH]; [split; [constructor|done]|].
  rewrite Forall_cons, IH. done.
Qed.

Lemma merge_yaml_self (v : Value) :
  self_mergeable v ->
  match v with
  | VMap entries => VMap (merge_yaml entries entries) = sort_dict v
  | _ => True
  end.
Proof.
  induction v as [s|items _|entries IH] using Value_ind; [done..|].
  intros [Hnd Hval]%self_mergeable_entries.
  rewrite sort_dict_map, merge_yaml_items. unfold sort_items. do 2 f_equal.
  set (F := fun '(k, v) => (k, sort_dict v) : string * Value).
  assert (forall post pre, NoDup (keys (pre ++ post)) ->
    Forall (fun kv => self_mergeable (snd kv)) post ->
    Forall (fun kv => self_mergeable (snd kv) ->
                      match snd kv with
                      | VMap es => VMap (merge_yaml es es) = sort_dict (snd kv)
                      | _ => True
                      end) post ->
    merge_items (map F pre ++ post) post = map F pre ++ map F post) as H.
  { clear. induction post as [|[k v] post IHpost]; intros pre Hnd Hval IH;
      simpl; [done|].
    apply Forall_cons in Hval as [Hv Hval]. apply Forall_cons in IH as [IHv IH].
    assert (k ∉ keys (map F pre)) as Hk.
    { unfold keys in *. rewrite map_map.
      rewrite map_app in Hnd. apply NoDup_app in Hnd as (_ & Hd & _).
      intros Hin. apply (Hd k); [|left].
      erewrite map_ext; [exact Hin|]. by intros [k' v']. }
    assert (merge_key (map F pre ++ (k, v) :: post) k v
            = map F (pre ++ [(k, v)]) ++ post) as ->.
    { assert (forall w, dict_set k w (map F pre ++ (k, v) :: post)
                        = map F pre ++ (k, w) :: post) as Hset.
      { intros w. revert Hk. generalize (map F pre) as p.
        induction p as [|[k0 v0] p IHp]; simpl.
        - by rewrite String.eqb_refl.
        - intros [Hne Hp]%not_elem_of_cons.
          destruct (String.eqb_spec k k0); [done|]. f_equal. by apply IHp. }
      assert (dict_get k (map F pre ++ (k, v) :: post) = Some v) as Hget.
      { revert Hk. generalize (map F pre) as p.
        induction p as [|[k0 v0] p IHp]; simpl.
        - by rewrite String.eqb_refl.
        - intros [Hne Hp]%not_elem_of_cons.
          destruct (String.eqb_spec k k0); [done|]. by apply IHp. }
      rewrite merge_key_eq, Hget, map_app. simpl. rewrite <- app_assoc. simpl.
      destruct v as [s|items|entries].
      - apply Hset.
      - rewrite Hset. by rewrite (merge_lists_self items Hv).
      - rewrite Hset. simpl in IHv. by rewrite (IHv Hv). }
    rewrite (IHpost (pre ++ [(k, v)])); [| |done..].
    - by rewrite map_app, <- app_assoc.
    - by rewrite <- app_assoc. }
  by apply (H entries []).
Qed.

(** ** The file pipeline *)

Section ScriptFacts.
Context {L : Libs}.

Lemma existing_entries_eval (output_text : string) (w : World) :
  existing_entries output_text w = (Ok (entries_on_disk w output_text), w).
Proof.
  unfold existing_entries, entries_on_disk, bind, path_exists, read_text, ret.
  unfold file_text.
  destruct (files w !! output_text) as [content|] eqn:E; simpl.
  - by rewrite E.
  - done.
Qed.

Lemma path_exists_Some (path text : string) (w : World) :
  file_text w path = Some text -> path_exists path w = (Ok true, w).
Proof.
  unfold file_text, path_exists. intros H.
  destruct (files w !! path) eqn:E; [|done]. rewrite bool_decide_true; eauto.
Qed.

Lemma path_exists_None (path : string) (w : World) :
  files w !! path = None -> path_exists path w = (Ok false, w).
Proof.
  intros H. unfold path_exists. rewrite bool_decide_false; [done|].
  rewrite H. by intros [? [=]].
Qed.

(** A constant that is not found: nothing is written and the answer is
    [False]. *)
Lemma update_blob_constant_not_found
    (blobs_js_path constant_name compressed_value content : string) (w : World) :
  file_text w blobs_js_path = Some content ->
  re_search (blob_pattern constant_name) content = false ->
  update_blob_constant blobs_js_path constant_name compressed_value w
  = (Ok false, w).
Proof.
  intros Hfile Hsearch. unfold update_blob_constant, bind.
  rewrite (path_exists_Some _ _ _ Hfile). simpl.
  unfold read_text. rewrite Hfile, Hsearch. reflexivity.
Qed.

(** [update_blobs.py] turns that answer into exit status 1. *)
Lemma update_blobs_main_not_found
    (args : BlobArgs) (path text content : string) (w : World) :
  ub_source args = FromFile path ->
  path <> "" ->
  file_text w path = Some text ->
  py_strip text <> "" ->
  file_text w (resolve_from_script_dir (ub_blobs_js args)) = Some content ->
  re_search (blob_pattern (ub_constant args)) content = false ->
  run (update_blobs_main args) w = (1%Z, w).
Proof.
  intros Hsrc Hpath Hfile Htext Hjs Hsearch.
  unfold run, update_blobs_main, bind. rewrite Hsrc.
  apply String.eqb_neq in Hpath, Htext. rewrite Hpath.
  rewrite (path_exists_Some _ _ _ Hfile). simpl.
  unfold read_compressed_file, bind, read_text. rewrite Hfile. simpl.
  unfold ret at 1. rewrite Htext.
  by rewrite (update_blob_constant_not_found _ _ _ _ _ Hjs Hsearch).
Qed.

Lemma append_nonempty (s t : string) : t <> "" -> s +:+ t <> "".
Proof. intros Ht. destruct s; [done|]. simpl. discriminate. Qed.

End ScriptFacts.
(** * The list merger and the limits of [str()] *)

(** The fallback loop keeps [old_list] as a prefix and appends a
    subsequence of [new_list], each appended element equal to none of those
    before it. *)
Lemma append_unique_shape (old_list new_list : list Value) :
  exists extra,
    append_unique old_list new_list = old_list ++ extra
    /\ sublist extra new_list
    /\ (forall pre x post, extra = pre ++ x :: post ->
          existsb (fun e => py_eq x e) (old_list ++ pre) = false).
Proof.
  unfold append_unique. revert old_list.
  induction new_list as [|item rest IH]; intros acc; simpl.
  - exists []. rewrite app_nil_r. split_and!; [done|done|].
    by intros [] ? ? [=].
  - destruct (existsb (fun e => py_eq item e) acc) eqn:E.
    + destruct (IH acc) as (extra & -> & Hsub & Hnew).
      exists extra. split_and!; [done|by apply sublist_cons|done].
    + destruct (IH (acc ++ [item])) as (extra & -> & Hsub & Hnew).
      exists (item :: extra). rewrite <- app_assoc. simpl.
      split_and!; [done|by apply sublist_skip|].
      intros [|p pre] x post [= -> Hrest].
      * by rewrite app_nil_r.
      * specialize (Hnew pre x post Hrest).
        by rewrite <- app_assoc in Hnew.
Qed.

Lemma append_unique_covers (old_list new_list : list Value) (x : Value) :
  x ∈ new_list ->
  x ∈ append_unique old_list new_list
  \/ exists y, y ∈ append_unique old_list new_list /\ py_eq x y = true.
Proof.
  unfold append_unique. revert old_list.
  induction new_list as [|item rest IH]; intros acc Hx; [inversion Hx|].
  simpl.
  assert (forall l a (y : Value), y ∈ a ->
    y ∈ fold_left (fun merged i =>
                     if existsb (fun e => py_eq i e) merged
                     then merged else merged ++ [i]) l a) as Hkeep.
  { induction l as [|i l IHl]; intros a y Hy; simpl; [done|].
    apply IHl. destruct (existsb _ a); [done|]. apply elem_of_app. by left. }
  apply elem_of_cons in Hx as [->|Hx]; [|by apply IH].
  destruct (existsb (fun e => py_eq item e) acc) eqn:E.
  - apply existsb_exists in E as (y & Hy%list_elem_of_In & Heq).
    right. exists y. split; [by apply Hkeep|done].
  - left. apply Hkeep, elem_of_app. right. left.
Qed.

Section StrLimitsFacts.
Variable str_returns : Value -> bool.

Lemma decorate_raises {A : Type} (key : A -> option Value) (l : list A) (x : A) :
  x ∈ l -> key x = None -> decorate key l = None.
Proof.
  intros Hx Hk. induction l as [|y l IH]; [inversion Hx|]. cbn [decorate].
  apply elem_of_cons in Hx as [<-|Hx]; [by rewrite Hk|].
  rewrite (IH Hx). by destruct (key y).
Qed.

Lemma decorate_returns {A : Type} (key : A -> option Value) (k : A -> Value)
    (l : list A) :
  Forall (fun x => key x = Some (k x)) l ->
  decorate key l = Some (map (fun x => (k x, x)) l).
Proof.
  induction 1 as [|x l Hx _ IH]; [done|]. cbn [decorate map]. by rewrite Hx, IH.
Qed.

Lemma insert_key_decorated {A : Type} (k : A -> Value) (x : A) (l : list A) :
  insert_key fst (k x, x) (map (fun y => (k y, y)) l)
  = match insert_key k x l with
    | Some s => Some (map (fun y => (k y, y)) s)
    | None => None
    end.
Proof.
  induction l as [|y l IH]; [done|]. cbn [insert_key map fst].
  destruct (py_lt (k y) (k x)) as [[|]|]; [|done..].
  rewrite IH. by destruct (insert_key k x l).
Qed.

Lemma py_sorted_decorated {A : Type} (k : A -> Value) (l : list A) :
  py_sorted fst (map (fun y => (k y, y)) l)
  = match py_sorted k l with
    | Some s => Some (map (fun y => (k y, y)) s)
    | None => None
    end.
Proof.
  induction l as [|x l IH]; [done|]. cbn [py_sorted map]. rewrite IH.
  destruct (py_sorted k l) as [s|]; [|done]. apply insert_key_decorated.
Qed.

(** Sorting on keys that are all computed is sorting with the key function
    that computes them. *)
Lemma py_sorted_checked_returns {A : Type} (key : A -> option Value)
    (k : A -> Value) (l : list A) :
  Forall (fun x => key x = Some (k x)) l ->
  py_sorted_checked key l = py_sorted k l.
Proof.
  intros H. unfold py_sorted_checked.
  rewrite (decorate_returns key k l H), py_sorted_decorated.
  destruct (py_sorted k l) as [s|]; [|done].
  rewrite map_map. cbn [snd]. by rewrite map_id.
Qed.

(** The sort of [merge_lists] fails exactly when an element is not
    rendered: the keys that are computed are strings, which compare. *)
Lemma py_sorted_checked_render (l : list Value) :
  py_sorted_checked (render_key_checked str_returns) l
  = if forallb str_returns l then Some (sorted_str render l) else None.
Proof.
  destruct (forallb str_returns l) eqn:E.
  - rewrite (py_sorted_checked_returns _ render_key); [apply py_sorted_render|].
    rewrite forallb_forall in E. apply Forall_forall. intros x Hx.
    unfold render_key_checked, py_str_checked.
    by rewrite (E x (proj1 (list_elem_of_In _ _) Hx)).
  - unfold py_sorted_checked.
    assert (exists x, x ∈ l /\ str_returns x = false) as (x & Hx & Hr).
    { clear -E. induction l as [|y l IH]; [done|]. cbn [forallb] in E.
      destruct (str_returns y) eqn:Hy.
      - destruct (IH E) as (x & Hx & Hr). exists x. split; [by right|done].
      - exists y. split; [left|done]. }
    rewrite (decorate_raises _ l x Hx); [done|].
    unfold render_key_checked, py_str_checked. by rewrite Hr.
Qed.

(** Within the limits [merge_lists_checked] is [merge_lists]. *)
Lemma merge_lists_checked_within_limits (old_list new_list : list Value) :
  forallb str_returns (append_unique old_list new_list) = true ->
  merge_lists_checked str_returns old_list new_list
  = merge_lists old_list new_list.
Proof.
  intros H. unfold merge_lists_checked, merge_lists.
  destruct (forallb is_str (old_list ++ new_list)); [done|]. cbv zeta.
  by rewrite py_sorted_checked_render, H, py_sorted_render.
Qed.

(** Outside them it returns the list in the order the fallback loop left
    it. *)
Lemma merge_lists_checked_append_order (old_list new_list : list Value) :
  forallb is_str (old_list ++ new_list) = false ->
  py_sorted_checked (render_key_checked str_returns)
    (append_unique old_list new_list) = None ->
  merge_lists_checked str_returns old_list new_list
  = append_unique old_list new_list.
Proof.
  intros Hstr Hfail. unfold merge_lists_checked.
  rewrite Hstr. cbv zeta. by rewrite Hfail.
Qed.
End StrLimitsFacts.

Lemma long_hex_int_not_rendered :
  within_int_max_str_digits (VScalar (SInt long_hex_int)) = false.
Proof. vm_compute. reflexivity. Qed.


(** * The claims *)

(** ** C6: the canonical form *)

(** C6.  For every tree [T], canonicalising twice is canonicalising once,
    and the canonical form reaches exactly the scalars that [T] reaches. *)
Theorem sort_dict_canonical_form (T : Value) :
  sort_dict (sort_dict T) = sort_dict T
  /\ (forall s : Scalar, s ∈ scalars (sort_dict T) <-> s ∈ scalars T).
Proof.
  split; [apply sort_dict_idem|].
  intros s. by rewrite (scalars_sort_dict T).
Qed.

(** ** C4: the list merger on strings *)

(** C4, as stated, fails: with ["Foo"; "FOO"] as the existing list the
    first-seen casing of the key "foo" is "Foo", which the result does not
    contain. *)
Lemma merge_lists_not_first_seen :
  ~ (str "Foo" ∈ merge_lists (map str ["Foo"; "FOO"]) (map str [])
     <-> first_seen_casing ["Foo"; "FOO"] [] (lower "Foo") = Some "Foo").
Proof.
  intros [_ H]. specialize (H eq_refl). vm_compute in H.
  apply list_elem_of_In in H. simpl in H. destruct H as [[=]|[]].
Qed.

(** C4 (amended).  For every pair of lists of strings, [merge_lists] returns
    strings sorted by their lowercase form, pairwise distinct under lowercase
    equality, and for each lowercase key exactly the casing of its last
    occurrence in the existing list or, when the existing list has none, of
    its first occurrence in the incoming list; in particular
    [merge_lists(["Foo"], ["foo", "Bar"]) = ["Bar", "Foo"]]. *)
Theorem merge_lists_kept_casing (existing incoming : list string) :
  let merged := merge_lists (map str existing) (map str incoming) in
  sortedb str_lower merged = true
  /\ distinct (map str_lower merged) = true
  /\ (forall v : Value,
        v ∈ merged
        <-> exists x, v = str x
                      /\ kept_casing existing incoming (lower x) = Some x)
  /\ merge_lists [str "Foo"] [str "foo"; str "Bar"] = [str "Bar"; str "Foo"].
Proof.
  intros merged. subst merged. rewrite merge_lists_strs.
  set (idx := lower_index (map str existing) (map str incoming)).
  pose proof (lower_index_ok (map str existing) (map str incoming)) as Hok.
  fold idx in Hok. split_and!.
  - apply sorted_str_sorted.
  - apply distinct_NoDup.
    rewrite (Permutation_map str_lower (sorted_str_perm str_lower (values idx))).
    rewrite (index_ok_keys idx Hok). apply Hok.
  - intros v. rewrite sorted_str_elem, (values_elem idx v (proj1 Hok)).
    subst idx. split.
    + intros [k Hk]. rewrite lower_index_get in Hk.
      destruct (kept_casing existing incoming k) as [x|] eqn:E; [|done].
      injection Hk as <-. exists x. split; [done|].
      by rewrite (kept_casing_lower _ _ _ _ E).
    + intros (x & -> & Hx). exists (lower x).
      by rewrite lower_index_get, Hx.
  - reflexivity.
Qed.

(** ** C9: the list merger on other lists *)

(** C9.  For some pair of lists that are not all strings the sort by
    lowercased rendering fails and [merge_lists] returns the list in append
    order rather than sorted: the existing elements in their order, followed
    by the incoming elements in their order, without those equal ([==]) to an
    element collected before them.  Such a pair is
    [["b", 2]] and [[n, 2, "a"]], where [n] is an [int] of more digits than
    [str] renders: the key of [n] raises, the exception is caught, and the
    result is [["b", 2, n, "a"]]. *)
Theorem merge_lists_sort_can_fail :
  exists old_list new_list : list Value,
    forallb is_str (old_list ++ new_list) = false
    /\ py_sorted_checked (render_key_checked within_int_max_str_digits)
         (append_unique old_list new_list) = None
    /\ (exists extra,
          merge_lists_checked within_int_max_str_digits old_list new_list
          = old_list ++ extra
          /\ sublist extra new_list
          /\ (forall pre x post, extra = pre ++ x :: post ->
                existsb (fun e => py_eq x e) (old_list ++ pre) = false)
          /\ (forall x, x ∈ new_list ->
                x ∈ old_list ++ extra
                \/ exists y, y ∈ old_list ++ extra /\ py_eq x y = true))
    /\ sortedb render
         (merge_lists_checked within_int_max_str_digits old_list new_list)
       = false.
Proof.
  exists [str "b"; int 2], [int long_hex_int; int 2; str "a"].
  assert (forallb is_str ([str "b"; int 2] ++ [int long_hex_int; int 2; str "a"])
          = false) as Hstr by reflexivity.
  assert (append_unique [str "b"; int 2] [int long_hex_int; int 2; str "a"]
          = [str "b"; int 2; int long_hex_int; str "a"]) as Hmerged
    by (vm_compute; reflexivity).
  assert (py_sorted_checked (render_key_checked within_int_max_str_digits)
            (append_unique [str "b"; int 2] [int long_hex_int; int 2; str "a"])
          = None) as Hfail.
  { rewrite py_sorted_checked_render, Hmerged. cbn [forallb].
    change (int long_hex_int) with (VScalar (SInt long_hex_int)).
    rewrite long_hex_int_not_rendered. by rewrite !andb_false_r. }
  split_and!; [done|done| |].
  - rewrite (merge_lists_checked_append_order _ _ _ Hstr Hfail).
    destruct (append_unique_shape [str "b"; int 2]
                [int long_hex_int; int 2; str "a"]) as (extra & E & Hsub & Hnew).
    exists extra. split_and!; [done..|].
    intros x Hx. rewrite <- E. by apply append_unique_covers.
  - rewrite (merge_lists_checked_append_order _ _ _ Hstr Hfail), Hmerged.
    cbn [sortedb]. apply andb_false_intro1. vm_compute. reflexivity.
Qed.

(** ** C3: a key present on both sides *)

(** C3.  For a key that both mappings have: an existing scalar is replaced
    by the incoming value, whatever it is; an existing mapping or list facing
    an incoming value of another shape is kept as it is.  [merge_yaml] is a
    total function, so no outcome is an error. *)
Theorem merge_yaml_shared_key (existing new : dict Value) (key : string)
    (old_val new_val : Value) :
  distinct (keys new) = true ->
  dict_get key existing = Some old_val ->
  dict_get key new = Some new_val ->
  (shape old_val = ShScalar ->
   dict_get key (merge_yaml existing new) = Some new_val)
  /\ (shape old_val <> ShScalar -> shape new_val <> shape old_val ->
      dict_get key (merge_yaml existing new) = Some old_val).
Proof.
  intros Hnd%distinct_NoDup Hold Hnew.
  rewrite (merge_yaml_get existing new key old_val new_val Hnd Hold Hnew).
  rewrite merge_key_eq. simpl. rewrite String.eqb_refl.
  split.
  - destruct old_val; [|done..]. intros _. simpl. by rewrite String.eqb_refl.
  - destruct old_val, new_val; simpl; rewrite ?String.eqb_refl; done.
Qed.

Lemma merge_yaml_shared_key_witness :
  (shape (VMap [("n", int 1)]) = ShScalar ->
   dict_get "x" (merge_yaml [("y", int 1); ("x", VMap [("n", int 1)])]
                            [("x", str "scalar"); ("y", int 2)])
   = Some (str "scalar"))
  /\ (shape (VMap [("n", int 1)]) <> ShScalar ->
      shape (str "scalar") <> shape (VMap [("n", int 1)]) ->
      dict_get "x" (merge_yaml [("y", int 1); ("x", VMap [("n", int 1)])]
                               [("x", str "scalar"); ("y", int 2)])
      = Some (VMap [("n", int 1)])).
Proof.
  apply (merge_yaml_shared_key
           [("y", int 1); ("x", VMap [("n", int 1)])]
           [("x", str "scalar"); ("y", int 2)] "x"
           (VMap [("n", int 1)]) (str "scalar")); reflexivity.
Defined.

(** ** C5: sorted keys *)

(** C5, as stated, fails: a subtree that comes in under a new key is
    inserted as it is, unsorted keys included. *)
Lemma merge_yaml_leaves_new_subtree_unsorted :
  all_sorted (VMap (merge_yaml [] [("a", VMap [("b", int 1); ("a", int 2)])]))
  <> true.
Proof. vm_compute. discriminate. Qed.

(** C5 (amended).  For every pair of mappings the keys of the merged mapping
    are sorted case-insensitively; and when every mapping reachable in the
    existing tree and in the incoming tree has sorted keys, so has every
    mapping reachable in the result. *)
Theorem merge_yaml_keys_sorted (existing new : dict Value) :
  keys_sorted (merge_yaml existing new) = true
  /\ (all_sorted (VMap existing) = true ->
      all_sorted (VMap new) = true ->
      all_sorted (VMap (merge_yaml existing new)) = true).
Proof.
  split; [apply sorted_str_sorted|].
  simpl. intros [_ Hex%forallb_values]%andb_prop [_ Hnew%forallb_values]%andb_prop.
  apply andb_true_intro. split; [apply sorted_str_sorted|].
  apply forallb_values. rewrite merge_yaml_items. unfold sort_items.
  rewrite (sorted_str_perm item_key). by apply all_sorted_merge_items.
Qed.

Lemma merge_yaml_keys_sorted_witness :
  all_sorted
    (VMap (merge_yaml [("b", VMap [("x", int 1)]); ("C", int 0)]
                      [("a", VMap [("K", int 1); ("m", int 2)]);
                       ("b", VMap [("D", int 3)])]))
  = true.
Proof.
  apply (merge_yaml_keys_sorted
           [("b", VMap [("x", int 1)]); ("C", int 0)]
           [("a", VMap [("K", int 1); ("m", int 2)]);
            ("b", VMap [("D", int 3)])]); reflexivity.
Defined.

(** ** C1: merging a tree with itself *)




(** ** C10: nothing new to add *)

Section PipelineClaims.
Context {L : Libs}.

(** C10.  When the entries extracted add nothing to those already in the
    output file, [extract_and_merge] returns with the world as it found it:
    no file is written, the compressed file and [blobs.js] included. *)
Theorem extract_and_merge_nothing_new
    (input_yaml output_text : string) (compressed_output : option string)
    (extract_func : Value -> Outcome (list string))
    (blob_constant blobs_js_path : option string)
    (w : World) (text : string) (data : Value) (extracted : list string) :
  file_text w input_yaml = Some text ->
  yaml_safe_load text = Some data ->
  extract_func data = Ok extracted ->
  entries_on_disk w output_text ∪ list_to_set extracted
  = entries_on_disk w output_text ->
  extract_and_merge input_yaml output_text compressed_output extract_func
    blob_constant blobs_js_path w
  = (Ok tt, w).
Proof.
  intros Hfile Hload Hextract Hunion.
  unfold extract_and_merge, bind, read_text, lift.
  rewrite Hfile, Hload, Hextract, existing_entries_eval, Hunion.
  by rewrite Z.sub_diag.
Qed.

(** ** C2: the line-list scenario *)

(** C2 (amended).  With the lines alpha and beta in the output file and
    "Beta" and "gamma" extracted, the run leaves the four lines Beta, alpha,
    beta, gamma in that order: entries are compared exactly, and sorted by
    code point. *)
Theorem line_list_scenario
    (extract_func : Value -> Outcome (list string))
    (w : World) (text : string) (data : Value) :
  file_text w "save.yaml" = Some text ->
  yaml_safe_load text = Some data ->
  extract_func data = Ok ["Beta"; "gamma"] ->
  file_text w "locations.txt" = Some ("alpha" +:+ nl +:+ "beta") ->
  files (snd (extract_and_merge "save.yaml" "locations.txt" None extract_func
                None None w)) !! "locations.txt"
  = Some ("Beta" +:+ nl +:+ "alpha" +:+ nl +:+ "beta" +:+ nl +:+ "gamma" +:+ nl).
Proof.
  intros Hfile Hload Hextract Hout.
  unfold extract_and_merge, bind, read_text, lift.
  rewrite Hfile, Hload, Hextract, existing_entries_eval.
  unfold entries_on_disk. rewrite Hout.
  set (all := read_entries ("alpha" +:+ nl +:+ "beta") ∪ list_to_set ["Beta"; "gamma"]).
  assert (size all = 4) as -> by (by vm_compute).
  assert (size (read_entries ("alpha" +:+ nl +:+ "beta")) = 2) as ->
    by (by vm_compute).
  assert (sorted_entries all = ["Beta"; "alpha"; "beta"; "gamma"]) as ->
    by (by vm_compute).
  simpl. unfold write_text. simpl.
  rewrite lookup_insert_ne by done. by rewrite lookup_insert_eq.
Qed.

(** ** C8: a publish step that does not find its constant *)

(** C8, on the code: a run of [extract_yaml.py] that writes the collectibles
    with compression and then fails to find the constant in [blobs.js] ends
    with exit status 0; the YAML file and the compressed file are in place.
    [write_yaml_and_compressed] drops the [False] that
    [update_blob_constant] returns, which [update_blobs.py] turns into exit
    status 1 ([update_blobs_main_not_found]). *)
Theorem extract_yaml_exit_status_on_missing_constant
    (args : Args) (w : World) (out js text content : string)
    (data : Value) (collectibles : dict Value) :
  let obj := sort_dict (VMap collectibles) in
  let compressed_txt := path_without_suffix out +:+ "_compressed.txt" in
  given (missions_out args) = false ->
  given (unlockables_out args) = false ->
  collectibles_out args = Some out ->
  collectibles_comp args = true ->
  blobs_js args = Some js ->
  out <> "" -> js <> "" -> js <> out -> js <> compressed_txt ->
  has_update_blobs = true ->
  file_text w (input args) = Some text ->
  yaml_safe_load text = Some data ->
  extract_collectibles data = Ok (VMap collectibles) ->
  files w !! out = None ->
  file_text w js = Some content ->
  re_search (blob_pattern "COLLECTIBLES_COMPRESSED") content = false ->
  run (extract_yaml_main args) w
  = (0%Z,
     {| files := <[compressed_txt := compress_b64 (yaml_safe_dump obj)]>
                   (<[out := yaml_safe_dump obj]> (files w));
        written := written w ++ [out; compressed_txt] |}).
Proof.
  intros obj compressed_txt Hm Hu Hc Hcc Hb Hout Hjs Hne1 Hne2 Hhas
    Hfile Hload Hextract Hno Hblob Hsearch.
  assert (given (Some out) = true) as Hgo
    by (simpl; by apply negb_true_iff, String.eqb_neq).
  assert (given (Some js) = true) as Hgj
    by (simpl; by apply negb_true_iff, String.eqb_neq).
  assert (compressed_txt <> "") as Hct by (by apply append_nonempty).
  unfold run, extract_yaml_main. rewrite Hm, Hu, Hc, Hgo.
  unfold extract_step, sorted_value.
  rewrite ?Hm, ?Hu, ?Hc, ?Hcc, ?Hb, ?Hgo, ?Hgj.
  cbv [bind ret lift read_text negb andb or_empty]. rewrite Hfile, Hload, Hextract.
  fold obj. unfold write_yaml_and_compressed. cbv [bind ret lift or_empty].
  rewrite (path_exists_None _ _ Hno), andb_false_r.
  fold compressed_txt. unfold write_text.
  rewrite (proj2 (String.eqb_neq _ _) Hout), (proj2 (String.eqb_neq _ _) Hct).
  rewrite Hgj, Hhas. cbv [given andb].
  change (negb (String.eqb "COLLECTIBLES_COMPRESSED" "")) with true.
  cbv beta iota.
  erewrite update_blob_constant_not_found; [| |exact Hsearch].
  - assert (exists n, py_len obj = Ok n) as [n ->].
    { unfold obj. rewrite sort_dict_map. by eexists. }
    cbv [exit_code files written]. by rewrite <- app_assoc.
  - unfold file_text in *. cbv [files].
    rewrite !lookup_insert_ne by done. exact Hblob.
Qed.

End PipelineClaims.

Lemma extract_and_merge_nothing_new_witness :
  let w := mkWorld {[ "save.yaml" := "state: {}";
                      "rewards.txt" := "alpha" +:+ nl +:+ "beta" +:+ nl ]} [] in
  @extract_and_merge toy_libs "save.yaml" "rewards.txt" (Some "rewards.b64")
    (fun _ => Ok ["beta"; "alpha"]) (Some "REWARDS_COMPRESSED") (Some "blobs.js") w
  = (Ok tt, w).
Proof.
  intros w.
  apply (@extract_and_merge_nothing_new toy_libs "save.yaml" "rewards.txt"
           (Some "rewards.b64") (fun _ => Ok ["beta"; "alpha"])
           (Some "REWARDS_COMPRESSED") (Some "blobs.js") w
           "state: {}" toy_document ["beta"; "alpha"]);
    [reflexivity..|by vm_compute].
Defined.

(** C2, as stated, fails: the run leaves four lines, "Beta" first, not the
    three lines alpha, beta, gamma. *)
Lemma line_list_scenario_not_three_lines :
  file_lines <$>
    files (snd (@extract_and_merge toy_libs "save.yaml" "locations.txt" None
                  (fun _ => Ok ["Beta"; "gamma"]) None None
                  (mkWorld {[ "save.yaml" := "state: {}";
                              "locations.txt" := "alpha" +:+ nl +:+ "beta" ]} [])))
      !! "locations.txt"
  <> Some ["alpha"; "beta"; "gamma"].
Proof. vm_compute. discriminate. Qed.

Lemma line_list_scenario_witness :
  files (snd (@extract_and_merge toy_libs "save.yaml" "locations.txt" None
                (fun _ => Ok ["Beta"; "gamma"]) None None
                (mkWorld {[ "save.yaml" := "state: {}";
                            "locations.txt" := "alpha" +:+ nl +:+ "beta" ]} [])))
    !! "locations.txt"
  = Some ("Beta" +:+ nl +:+ "alpha" +:+ nl +:+ "beta" +:+ nl +:+ "gamma" +:+ nl).
Proof.
  apply (@line_list_scenario toy_libs (fun _ => Ok ["Beta"; "gamma"]) _
           "state: {}" toy_document); reflexivity.
Defined.

Lemma extract_yaml_exit_status_on_missing_constant_witness :
  fst (run (@extract_yaml_main toy_libs collectibles_args)
         (mkWorld {[ "save.yaml" := "stats: {}";
                     "assets/blobs.js" := "const LOCATIONS_COMPRESSED = 'eJw=';" ]}
                  []))
  = 0%Z.
Proof.
  rewrite (@extract_yaml_exit_status_on_missing_constant toy_libs
             collectibles_args _ "data/collectibles.yaml" "assets/blobs.js"
             "stats: {}" "const LOCATIONS_COMPRESSED = 'eJw=';"
             toy_document [("Vault", VList [str "b"; str "A"])]);
    try reflexivity; done.
Defined.

(** * Further properties of the merge engine *)

(** ** [merge_lists] *)

Lemma fold_set_has (x : Value) (l : list Value) (acc : dict Value) :
  x ∈ l \/ dict_has (str_lower x) acc = true ->
  dict_has (str_lower x)
    (fold_left (fun m y => dict_set (str_lower y) y m) l acc) = true.
Proof.
  revert acc. induction l as [|y l IH]; intros acc; simpl.
  - intros [H|H]; [inversion H|done].
  - intros H. apply IH.
    destruct (String.eqb_spec (str_lower x) (str_lower y)) as [E|Hne].
    + right. unfold dict_has. by rewrite E, dict_get_set_eq.
    + destruct H as [[->|H]%elem_of_cons|H]; [done|by left|right].
      unfold dict_has in *. by rewrite dict_get_set_ne.
Qed.

Lemma fold_guarded_has (x : Value) (l : list Value) (acc : dict Value) :
  x ∈ l \/ dict_has (str_lower x) acc = true ->
  dict_has (str_lower x)
    (fold_left (fun m y => let lk := str_lower y in
                           if dict_has lk m then m else dict_set lk y m) l acc)
  = true.
Proof.
  revert acc. induction l as [|y l IH]; intros acc; simpl.
  - intros [H|H]; [inversion H|done].
  - intros H. apply IH.
    destruct (dict_has (str_lower y) acc) eqn:Hy.
    + destruct H as [[->|H]%elem_of_cons|H]; [by right|by left|by right].
    + destruct (String.eqb_spec (str_lower x) (str_lower y)) as [E|Hne].
      * right. unfold dict_has. by rewrite E, dict_get_set_eq.
      * destruct H as [[->|H]%elem_of_cons|H]; [done|by left|right].
        unfold dict_has in *. by rewrite dict_get_set_ne.
Qed.

Lemma lower_index_has (old_list new_list : list Value) (x : Value) :
  x ∈ old_list ++ new_list ->
  dict_has (str_lower x) (lower_index old_list new_list) = true.
Proof.
  intros [H|H]%elem_of_app; unfold lower_index; apply fold_guarded_has.
  - right. apply fold_set_has. by left.
  - by left.
Qed.

Lemma merge_lists_covers (old_list new_list : list Value) (x : Value) :
  x ∈ old_list ++ new_list ->
  if forallb is_str (old_list ++ new_list)
  then exists y, y ∈ merge_lists old_list new_list
                 /\ str_lower y = str_lower x
  else x ∈ merge_lists old_list new_list
       \/ (x ∈ new_list
           /\ exists y, y ∈ merge_lists old_list new_list
                        /\ py_eq x y = true).
Proof.
  intros Hx. unfold merge_lists.
  destruct (forallb is_str (old_list ++ new_list)) eqn:Hstr.
  - pose proof (lower_index_has old_list new_list x Hx) as Hhas.
    pose proof (lower_index_ok old_list new_list) as [Hnd Hok].
    unfold dict_has in Hhas.
    destruct (dict_get (str_lower x) (lower_index old_list new_list))
      as [y|] eqn:Hget; [|done].
    exists y. split.
    + apply sorted_str_elem, values_elem; eauto.
    + apply dict_get_Some_elem in Hget. rewrite Forall_forall in Hok.
      by apply (Hok (str_lower x, y)).
  - rewrite py_sorted_render.
    apply elem_of_app in Hx as [Hx|Hx].
    + left. apply sorted_str_elem.
      destruct (append_unique_shape old_list new_list) as (extra & -> & _).
      apply elem_of_app. by left.
    + destruct (append_unique_covers old_list new_list x Hx) as [H|(y & Hy & E)].
      * left. by apply sorted_str_elem.
      * right. split; [done|]. exists y. split; [by apply sorted_str_elem|done].
Qed.

Lemma merge_lists_keeps_existing (old_list new_list : list Value) (x : Value) :
  forallb is_str (old_list ++ new_list) = false ->
  x ∈ old_list -> x ∈ merge_lists old_list new_list.
Proof.
  intros Hstr Hx. rewrite (merge_lists_fallback _ _ Hstr).
  apply sorted_str_elem.
  destruct (append_unique_shape old_list new_list) as (extra & -> & _).
  apply elem_of_app. by left.
Qed.

(** X1.  [merge_lists] invents nothing and drops nothing: every element of
    the result comes from one of the two lists; for lists of strings every
    input has an element of the result with its lowercase form; otherwise
    every existing element is in the result, and every incoming element is
    in the result or equal ([==]) to an element of it. *)
Theorem merge_lists_elements (old_list new_list : list Value) :
  (forall y, y ∈ merge_lists old_list new_list -> y ∈ old_list \/ y ∈ new_list)
  /\ (if forallb is_str (old_list ++ new_list)
      then forall x, x ∈ old_list ++ new_list ->
             exists y, y ∈ merge_lists old_list new_list
                       /\ str_lower y = str_lower x
      else (forall x, x ∈ old_list -> x ∈ merge_lists old_list new_list)
           /\ (forall x, x ∈ new_list ->
                  x ∈ merge_lists old_list new_list
                  \/ exists y, y ∈ merge_lists old_list new_list
                               /\ py_eq x y = true)).
Proof.
  split; [apply merge_lists_subset|].
  pose proof (merge_lists_covers old_list new_list) as Hcov.
  destruct (forallb is_str (old_list ++ new_list)) eqn:Hstr; [done|].
  split.
  - intros x. by apply merge_lists_keeps_existing.
  - intros x Hx. destruct (Hcov x) as [H|[_ H]]; [|by left|by right].
    apply elem_of_app. by right.
Qed.

(** X2.  On lists that are not all strings the result is a rearrangement of
    the whole existing list, repeated elements included, followed by incoming
    elements in their order, each one equal ([==]) to no element collected
    before it. *)
Theorem merge_lists_fallback_shape (old_list new_list : list Value) :
  forallb is_str (old_list ++ new_list) = false ->
  exists extra,
    Permutation (merge_lists old_list new_list) (old_list ++ extra)
    /\ sublist extra new_list
    /\ (forall pre x post, extra = pre ++ x :: post ->
          existsb (fun e => py_eq x e) (old_list ++ pre) = false).
Proof.
  intros H. rewrite (merge_lists_fallback _ _ H).
  destruct (append_unique_shape old_list new_list) as (extra & E & Hsub & Hnew).
  exists extra. split_and!; [|done..]. rewrite <- E. apply sorted_str_perm.
Qed.

Lemma merge_lists_fallback_shape_witness :
  exists extra,
    Permutation (merge_lists [int 2; int 2; str "b"] [int 10; int 2; int 10])
                ([int 2; int 2; str "b"] ++ extra)
    /\ sublist extra [int 10; int 2; int 10]
    /\ (forall pre x post, extra = pre ++ x :: post ->
          existsb (fun e => py_eq x e) ([int 2; int 2; str "b"] ++ pre) = false).
Proof.
  apply (merge_lists_fallback_shape [int 2; int 2; str "b"]
           [int 10; int 2; int 10]).
  reflexivity.
Defined.

Lemma lower_index_covered (l new_list : list Value) :
  NoDup (map str_lower l) ->
  Forall (fun x => str_lower x ∈ map str_lower l) new_list ->
  lower_index l new_list = map (fun x => (str_lower x, x)) l.
Proof.
  intros Hnd Hcov. unfold lower_index.
  pose proof (lower_index_self l Hnd) as Hself. unfold lower_index in Hself.
  cbv zeta in *.
  set (base := fold_left (fun m x => dict_set (str_lower x) x m) l []) in *.
  assert (forall m (r : list Value),
    Forall (fun x => dict_has (str_lower x) m = true) r ->
    fold_left (fun m x => if dict_has (str_lower x) m then m
                          else dict_set (str_lower x) x m) r m
    = m) as Hid.
  { intros m r. induction 1 as [|y r Hy _ IH]; simpl; [done|]. by rewrite Hy. }
  assert (Forall (fun x => dict_has (str_lower x) base = true) l) as Hall.
  { apply Forall_forall. intros x Hx. apply fold_set_has. by left. }
  rewrite (Hid base l Hall) in Hself. rewrite Hself. apply Hid.
  apply Forall_forall. intros y Hy. rewrite Forall_forall in Hcov.
  specialize (Hcov y Hy). unfold dict_has.
  destruct (dict_get _ _) eqn:E; [done|]. apply dict_get_None in E.
  exfalso. apply E. unfold keys. by rewrite map_map.
Qed.

Lemma merge_lists_again (old_list new_list : list Value) :
  forallb wf new_list = true ->
  merge_lists (merge_lists old_list new_list) new_list
  = merge_lists old_list new_list.
Proof.
  intros Hwf.
  set (r := merge_lists old_list new_list).
  pose proof (merge_lists_subset old_list new_list) as Hsub.
  pose proof (fun x => merge_lists_covers old_list new_list x) as Hcov.
  fold r in Hsub, Hcov.
  destruct (forallb is_str (old_list ++ new_list)) eqn:Hstr.
  - assert (r = sorted_str str_lower (values (lower_index old_list new_list)))
      as Hr by (unfold r, merge_lists; by rewrite Hstr).
    pose proof (lower_index_ok old_list new_list) as Hok.
    assert (NoDup (map str_lower r)) as Hnd.
    { rewrite Hr.
      rewrite (Permutation_map str_lower (sorted_str_perm str_lower _)).
      rewrite (index_ok_keys _ Hok). apply Hok. }
    assert (forallb is_str (r ++ new_list) = true) as Hstr'.
    { rewrite forallb_forall in Hstr. apply forallb_forall.
      intros x [Hx|Hx]%list_elem_of_In%elem_of_app; apply Hstr, list_elem_of_In.
      - apply elem_of_app. by apply Hsub.
      - apply elem_of_app. by right. }
    unfold merge_lists at 1. rewrite Hstr'.
    rewrite (lower_index_covered r new_list Hnd).
    + unfold values. rewrite map_map. simpl. rewrite map_id.
      rewrite Hr. apply sorted_str_idem.
    + apply Forall_forall. intros x Hx.
      destruct (Hcov x) as (y & Hy & <-); [apply elem_of_app; by right|].
      apply list_elem_of_In, in_map. by apply list_elem_of_In.
  - assert (r = sorted_str render (append_unique old_list new_list)) as Hr
      by (unfold r; by apply merge_lists_fallback).
    assert (forallb is_str (r ++ new_list) = false) as Hstr'.
    { apply not_true_iff_false. intros Hall.
      apply not_true_iff_false in Hstr. apply Hstr.
      rewrite forallb_forall in Hall. apply forallb_forall.
      intros x Hx%list_elem_of_In. specialize (Hcov x Hx).
      apply elem_of_app in Hx as [Hx|Hx].
      - destruct Hcov as [Hr'|[Hn _]]; apply Hall, list_elem_of_In, elem_of_app;
          [by left|by right].
      - apply Hall, list_elem_of_In, elem_of_app. by right. }
    rewrite (merge_lists_fallback _ _ Hstr').
    assert (append_unique r new_list = r) as ->.
    { unfold append_unique.
      assert (forall l, Forall (fun x => existsb (fun e => py_eq x e) r = true) l ->
        fold_left (fun merged item =>
                     if existsb (fun e => py_eq item e) merged
                     then merged else merged ++ [item]) l r = r) as Hid.
      { induction 1 as [|x l Hx _ IH]; simpl; [done|]. by rewrite Hx. }
      apply Hid, Forall_forall. intros x Hx. apply existsb_exists.
      rewrite forallb_forall in Hwf.
      destruct (Hcov x) as [Hin|[_ (y & Hy & E)]]; [apply elem_of_app; by right| |].
      - exists x. split; [by apply list_elem_of_In|].
        apply py_eq_refl, Hwf. by apply list_elem_of_In.
      - exists y. split; [by apply list_elem_of_In|done]. }
    rewrite Hr. apply sorted_str_idem.
Qed.

(** X3.  Merging the same incoming list a second time changes nothing. *)
Theorem merge_lists_rerun (old_list new_list : list Value) :
  forallb wf new_list = true ->
  merge_lists (merge_lists old_list new_list) new_list
  = merge_lists old_list new_list.
Proof. apply merge_lists_again. Qed.

Lemma merge_lists_rerun_witness :
  merge_lists (merge_lists [int 2; str "b"] [VMap [("k", int 1)]; str "B"; int 2])
              [VMap [("k", int 1)]; str "B"; int 2]
  = merge_lists [int 2; str "b"] [VMap [("k", int 1)]; str "B"; int 2].
Proof.
  apply (merge_lists_rerun [int 2; str "b"] [VMap [("k", int 1)]; str "B"; int 2]).
  reflexivity.
Defined.

(** ** [merge_yaml] *)

Lemma dict_set_same {A : Type} (k : string) (v : A) (d : dict A) :
  dict_get k d = Some v -> dict_set k v d = d.
Proof.
  induction d as [|[k0 v0] d IH]; simpl; [done|].
  destruct (String.eqb k k0); [by intros [= ->]|]. intros H. by rewrite IH.
Qed.

Lemma merge_key_merged (existing : dict Value) (key : string) (new_val : Value) :
  merge_key existing key new_val
  = dict_set key
      (match dict_get key existing with
       | Some old_val => merged_value old_val new_val
       | None => new_val
       end) existing.
Proof.
  rewrite merge_key_eq.
  destruct (dict_get key existing) as [old_val|] eqn:E; [|done].
  destruct old_val, new_val; simpl; try done; by rewrite dict_set_same.
Qed.

Lemma keys_merge_key (existing : dict Value) (key : string) (new_val : Value) :
  keys (merge_key existing key new_val)
  = if dict_has key existing then keys existing else keys existing ++ [key].
Proof. rewrite merge_key_merged. apply keys_dict_set. Qed.

Lemma keys_merge_items (existing new : dict Value) (k : string) :
  k ∈ keys (merge_items existing new) <-> k ∈ keys existing \/ k ∈ keys new.
Proof.
  unfold merge_items. revert existing.
  induction new as [|[k0 v0] rest IH]; intros ex; simpl.
  - split; [by left|]. intros [H|H]; [done|inversion H].
  - rewrite IH, keys_merge_key, elem_of_cons. unfold dict_has.
    destruct (dict_get k0 ex) eqn:E.
    + split; [intros [H|H]; auto|]. intros [H|[->|H]]; auto.
      left. apply dict_get_Some_elem in E.
      apply list_elem_of_In, in_map_iff. exists (k0, v).
      split; [done|by apply list_elem_of_In].
    + rewrite elem_of_app, list_elem_of_singleton.
      split; [intros [[H|H]|H]; auto|]. intros [H|[H|H]]; auto.
Qed.

Lemma NoDup_keys_merge_items (existing new : dict Value) :
  NoDup (keys existing) -> NoDup (keys (merge_items existing new)).
Proof.
  unfold merge_items. revert existing.
  induction new as [|[k0 v0] rest IH]; intros ex Hnd; simpl; [done|].
  apply IH. rewrite merge_key_merged. by apply NoDup_keys_dict_set.
Qed.

Lemma keys_sort_items (d : dict Value) : Permutation (keys (sort_items d)) (keys d).
Proof. unfold keys, sort_items. apply Permutation_map, sorted_str_perm. Qed.

(** X4.  The keys of the merged mapping are those of the two mappings and
    no other, and they stay pairwise distinct. *)
Theorem merge_yaml_keys (existing new : dict Value) :
  (forall k, k ∈ keys (merge_yaml existing new)
             <-> k ∈ keys existing \/ k ∈ keys new)
  /\ (distinct (keys existing) = true ->
      distinct (keys (merge_yaml existing new)) = true).
Proof.
  rewrite merge_yaml_items. split.
  - intros k. rewrite (keys_sort_items (merge_items existing new)).
    apply keys_merge_items.
  - rewrite !distinct_NoDup. intros H.
    rewrite (keys_sort_items (merge_items existing new)).
    by apply NoDup_keys_merge_items.
Qed.

Lemma merge_yaml_keys_witness :
  distinct (keys (merge_yaml [("b", int 1); ("a", int 2)]
                             [("c", int 3); ("a", int 4)])) = true.
Proof.
  apply (merge_yaml_keys [("b", int 1); ("a", int 2)]
           [("c", int 3); ("a", int 4)]).
  reflexivity.
Defined.

Lemma merge_items_get (existing new : dict Value) (key : string) :
  NoDup (keys new) ->
  dict_get key (merge_items existing new)
  = match dict_get key new with
    | None => dict_get key existing
    | Some new_val =>
        match dict_get key existing with
        | None => Some new_val
        | Some old_val => Some (merged_value old_val new_val)
        end
    end.
Proof.
  intros Hnd. destruct (dict_get key new) as [new_val|] eqn:Hnew.
  - apply dict_get_split in Hnew as (pre & post & -> & Hpre).
    unfold merge_items. rewrite fold_left_app. simpl.
    fold (merge_items existing pre).
    fold (merge_items (merge_key (merge_items existing pre) key new_val) post).
    unfold keys in Hnd. rewrite map_app in Hnd. simpl in Hnd.
    apply NoDup_app in Hnd as (_ & _ & [Hpost _]%NoDup_cons).
    rewrite merge_items_get_notin by done.
    rewrite merge_key_merged, dict_get_set_eq.
    rewrite (merge_items_get_notin existing pre key Hpre).
    by destruct (dict_get key existing).
  - apply merge_items_get_notin. by apply dict_get_None.
Qed.

(** X5.  Key by key, the merged mapping holds: the existing value under a key
    the incoming mapping lacks; the incoming value, as it is, under a key the
    existing mapping lacks; and under a shared key the recursive merge of two
    mappings, the list merge of two lists, the incoming value over an
    existing scalar, the existing value otherwise. *)
Theorem merge_yaml_lookup (existing new : dict Value) (key : string) :
  distinct (keys new) = true ->
  dict_get key (merge_yaml existing new)
  = match dict_get key new with
    | None => dict_get key existing
    | Some new_val =>
        match dict_get key existing with
        | None => Some new_val
        | Some old_val => Some (merged_value old_val new_val)
        end
    end.
Proof.
  intros Hnd%distinct_NoDup.
  rewrite merge_yaml_items, dict_get_sort_items. by apply merge_items_get.
Qed.

Lemma merge_yaml_lookup_witness :
  dict_get "m" (merge_yaml [("m", VMap [("x", int 1)]); ("l", VList [str "a"])]
                           [("m", VMap [("y", int 2)]); ("n", int 0)])
  = Some (VMap [("x", int 1); ("y", int 2)]).
Proof.
  rewrite (merge_yaml_lookup [("m", VMap [("x", int 1)]); ("l", VList [str "a"])]
             [("m", VMap [("y", int 2)]); ("n", int 0)] "m"); reflexivity.
Defined.

Lemma wf_entries (entries : dict Value) :
  wf (VMap entries) = true
  <-> NoDup (keys entries) /\ Forall (fun kv => wf (snd kv) = true) entries.
Proof.
  simpl. by rewrite andb_true_iff, distinct_NoDup, forallb_values.
Qed.

Lemma wf_merge_key (new_val : Value) :
  forall (existing : dict Value) (key : string),
    Forall (fun kv => wf (snd kv) = true) existing ->
    wf new_val = true ->
    Forall (fun kv => wf (snd kv) = true) (merge_key existing key new_val).
Proof.
  induction new_val as [s|items _|entries IH] using Value_ind;
    intros existing key Hex Hnew; rewrite merge_key_merged;
    apply (Forall_dict_set (fun x => wf x = true)); try done;
    destruct (dict_get key existing) as [old_val|] eqn:Hget; try done;
    pose proof (Forall_dict_get (fun x => wf x = true) _ _ _ Hex Hget) as Hold;
    destruct old_val as [s'|old_items|old_entries]; try done.
  - simpl in *. rewrite forallb_forall in Hold, Hnew. apply forallb_forall.
    intros x [H|H]%list_elem_of_In%merge_lists_subset;
      [apply Hold|apply Hnew]; by apply list_elem_of_In.
  - apply wf_entries in Hold as [Hknd Hold]. apply wf_entries in Hnew as [_ Hnew].
    unfold merged_value. apply wf_entries. rewrite merge_yaml_items. split.
    + rewrite (keys_sort_items (merge_items old_entries entries)).
      by apply NoDup_keys_merge_items.
    + unfold sort_items. rewrite (sorted_str_perm item_key).
      unfold merge_items. clear Hget Hknd. revert old_entries Hold.
      induction IH as [|[k v] rest Hv _ IHrest]; intros ex Hex'; simpl; [done|].
      apply Forall_cons in Hnew as [Hv' Hrest].
      apply IHrest; [done|]. by apply Hv.
Qed.

(** X6.  Merging two well-formed trees gives a well-formed tree: at every
    depth of the result the keys of a mapping are pairwise distinct. *)
Theorem merge_yaml_wf (existing new : dict Value) :
  wf (VMap existing) = true -> wf (VMap new) = true ->
  wf (VMap (merge_yaml existing new)) = true.
Proof.
  intros [Hnd Hex]%wf_entries [_ Hnew]%wf_entries. apply wf_entries.
  rewrite merge_yaml_items. split.
  - rewrite (keys_sort_items (merge_items existing new)).
    by apply NoDup_keys_merge_items.
  - unfold sort_items. rewrite (sorted_str_perm item_key). unfold merge_items.
    clear Hnd. revert existing Hex. induction new as [|[k v] rest IH];
      intros ex Hex; simpl; [done|].
    apply Forall_cons in Hnew as [Hv Hrest].
    apply IH; [done|]. by apply wf_merge_key.
Qed.

Lemma merge_yaml_wf_witness :
  wf (VMap (merge_yaml [("m", VMap [("x", int 1)]); ("l", VList [str "a"])]
                       [("m", VMap [("y", int 2); ("x", int 5)]);
                        ("l", VList [VMap [("q", int 1)]])]))
  = true.
Proof.
  apply (merge_yaml_wf [("m", VMap [("x", int 1)]); ("l", VList [str "a"])]
           [("m", VMap [("y", int 2); ("x", int 5)]);
            ("l", VList [VMap [("q", int 1)]])]); reflexivity.
Defined.

(** ** [sort_dict] and canonical trees *)

Lemma sort_dict_sorted (v : Value) : fully_sorted (sort_dict v) = true.
Proof.
  induction v as [s|items IH|entries IH] using Value_ind.
  - reflexivity.
  - rewrite sort_dict_list. simpl. apply andb_true_intro.
    split; [apply sorted_str_sorted|]. apply forallb_forall.
    intros x Hx%list_elem_of_In%sorted_str_elem.
    apply list_elem_of_In, in_map_iff in Hx as (y & <- & Hy%list_elem_of_In).
    rewrite Forall_forall in IH. by apply IH.
  - rewrite sort_dict_map. simpl. apply andb_true_intro.
    split; [apply sorted_str_sorted|]. apply forallb_values, Forall_forall.
    intros kv Hkv%sorted_str_elem.
    apply list_elem_of_In, in_map_iff in Hkv as ([k y] & <- & Hy%list_elem_of_In).
    rewrite Forall_forall in IH. by apply (IH (k, y)).
Qed.

Lemma sort_dict_fixed (v : Value) : fully_sorted v = true -> sort_dict v = v.
Proof.
  induction v as [s|items IH|entries IH] using Value_ind; [done| |].
  - simpl fully_sorted. intros [Hs Hall]%andb_prop.
    rewrite sort_dict_list. f_equal.
    assert (map sort_dict items = items) as ->.
    { rewrite <- (map_id items) at 2. apply map_ext_in.
      intros x Hx. rewrite forallb_forall in Hall. rewrite Forall_forall in IH.
      apply IH; [by apply list_elem_of_In|by apply Hall]. }
    by apply sorted_str_id.
  - simpl fully_sorted. intros [Hs Hall%forallb_values]%andb_prop.
    rewrite sort_dict_map. f_equal.
    assert (map (fun '(k, v) => (k, sort_dict v)) entries = entries) as ->.
    { rewrite <- (map_id entries) at 2. apply map_ext_in.
      intros [k x] Hx%list_elem_of_In. f_equal.
      rewrite Forall_forall in IH, Hall.
      apply (IH (k, x) Hx). by apply (Hall (k, x)). }
    by apply sorted_str_id.
Qed.

(** X7.  The trees that [sort_dict] leaves unchanged are exactly the
    canonical ones, and [sort_dict] always returns one: sorted keys in every
    mapping and sorted elements in every list, at every depth. *)
Theorem sort_dict_fixed_points (v : Value) :
  fully_sorted (sort_dict v) = true
  /\ (sort_dict v = v <-> fully_sorted v = true).
Proof.
  split; [apply sort_dict_sorted|]. split; [|apply sort_dict_fixed].
  intros <-. apply sort_dict_sorted.
Qed.

(** X8.  Canonicalising a well-formed tree gives a well-formed tree. *)
Theorem sort_dict_wf (v : Value) : wf v = true -> wf (sort_dict v) = true.
Proof.
  induction v as [s|items IH|entries IH] using Value_ind; [done| |].
  - rewrite sort_dict_list. simpl. rewrite !forallb_forall. intros Hall x
      Hx%list_elem_of_In%sorted_str_elem.
    apply list_elem_of_In, in_map_iff in Hx as (y & <- & Hy).
    rewrite Forall_forall in IH.
    apply IH; [by apply list_elem_of_In|by apply Hall].
  - intros [Hnd Hall]%wf_entries. rewrite sort_dict_map. apply wf_entries.
    split.
    + unfold keys. rewrite (Permutation_map fst (sorted_str_perm item_key _)).
      rewrite map_map. erewrite map_ext; [exact Hnd|]. by intros [k x].
    + rewrite (sorted_str_perm item_key). apply Forall_forall.
      intros kv Hkv.
      apply list_elem_of_In, in_map_iff in Hkv as ([k y] & <- & Hy%list_elem_of_In).
      rewrite Forall_forall in IH, Hall.
      apply (IH (k, y) Hy). by apply (Hall (k, y)).
Qed.

Lemma sort_dict_wf_witness :
  wf (sort_dict (VMap [("b", VList [VMap [("y", int 1); ("X", int 2)]]);
                       ("A", int 0)])) = true.
Proof.
  apply (sort_dict_wf (VMap [("b", VList [VMap [("y", int 1); ("X", int 2)]]);
                             ("A", int 0)])).
  reflexivity.
Defined.

Lemma dict_get_map_values (f : Value -> Value) (k : string) (d : dict Value) :
  dict_get k (map (fun '(k', v) => (k', f v)) d) = f <$> dict_get k d.
Proof.
  induction d as [|[k0 v0] d IH]; simpl; [done|].
  by destruct (String.eqb k k0).
Qed.

(** X9.  Canonicalising a mapping keeps its keys and puts under each key
    the canonical form of the value it had. *)
Theorem sort_dict_mapping (entries : dict Value) :
  exists sorted_entries,
    sort_dict (VMap entries) = VMap sorted_entries
    /\ Permutation (keys sorted_entries) (keys entries)
    /\ (forall k, dict_get k sorted_entries = sort_dict <$> dict_get k entries).
Proof.
  eexists. split; [apply sort_dict_map|]. split.
  - unfold keys. rewrite (Permutation_map fst (sorted_str_perm item_key _)).
    rewrite map_map. erewrite map_ext; [done|]. by intros [k x].
  - intros k. change (sorted_str item_key ?d) with (sort_items d).
    rewrite dict_get_sort_items. apply dict_get_map_values.
Qed.

(** ** Merging the same tree again *)

Lemma is_str_wf (l : list Value) : forallb is_str l = true -> forallb wf l = true.
Proof.
  rewrite !forallb_forall. intros H x Hx. specialize (H x Hx).
  by destruct x as [[]| |].
Qed.

Lemma list_self_mergeable_wf (l : list Value) :
  list_self_mergeable l -> forallb wf l = true.
Proof.
  unfold list_self_mergeable. destruct (forallb is_str l) eqn:E.
  - intros _. by apply is_str_wf.
  - intros H. apply forallb_forall. intros x Hx%list_elem_of_In.
    rewrite Forall_forall in H. by apply H.
Qed.

Lemma merged_value_self (v : Value) :
  self_mergeable v -> fully_sorted v = true -> merged_value v v = v.
Proof.
  intros Hsm Hfs. pose proof (sort_dict_fixed v Hfs) as Hfix.
  destruct v as [s|items|entries]; [done| |].
  - etrans; [apply (merge_lists_self items Hsm)|exact Hfix].
  - etrans; [apply (merge_yaml_self (VMap entries) Hsm)|exact Hfix].
Qed.

Lemma merge_yaml_again (v : Value) :
  self_mergeable v -> fully_sorted v = true ->
  match v with
  | VMap new =>
      forall existing,
        merge_yaml (merge_yaml existing new) new = merge_yaml existing new
  | _ => True
  end.
Proof.
  induction v as [s|items _|new IH] using Value_ind; [done..|].
  intros Hsm Hfs existing.
  pose proof Hsm as [Hnd Hvals]%self_mergeable_entries.
  simpl in Hfs. apply andb_prop in Hfs as [_ Hfs%forallb_values].
  set (R := merge_yaml existing new).
  assert (merge_items R new = R) as Hitems.
  { assert (forall items, (forall kv, kv ∈ items -> kv ∈ new) ->
              merge_items R items = R) as H; [|by apply H].
    induction items as [|[k v] items IHitems]; intros Hsub; [done|].
    unfold merge_items. simpl.
    assert ((k, v) ∈ new) as Hin by (apply Hsub; left).
    rewrite Forall_forall in IH, Hvals, Hfs.
    specialize (IH (k, v) Hin). specialize (Hvals (k, v) Hin).
    specialize (Hfs (k, v) Hin). simpl in IH, Hvals, Hfs.
    assert (merge_key R k v = R) as ->.
    { rewrite merge_key_merged. apply dict_set_same.
      unfold R at 1 2. rewrite merge_yaml_items, dict_get_sort_items.
      rewrite (merge_items_get existing new k Hnd).
      rewrite (dict_get_elem k v new Hnd Hin).
      destruct (dict_get k existing) as [old_val|].
      - f_equal. symmetry.
        destruct old_val as [s|old_items|old_entries], v as [s'|l|m];
          simpl; try done.
        + by apply (merged_value_self (VList l)).
        + by apply (merged_value_self (VMap m)).
        + f_equal. apply merge_lists_again.
          by apply list_self_mergeable_wf.
        + f_equal. by apply (IH Hvals Hfs).
      - f_equal. symmetry. by apply merged_value_self. }
    apply IHitems. intros kv Hkv. apply Hsub. by right. }
  rewrite (merge_yaml_items R new), Hitems. unfold R.
  rewrite merge_yaml_items. apply sorted_str_idem.
Qed.

(** X10.  Re-running a merge changes nothing: when the incoming tree is
    canonical and merges with itself into itself, merging it a second time
    into the result of the first merge returns that result, whatever the
    existing tree was. *)
Theorem merge_yaml_rerun (existing new : dict Value) :
  self_mergeable (VMap new) -> fully_sorted (VMap new) = true ->
  merge_yaml (merge_yaml existing new) new = merge_yaml existing new.
Proof. intros Hsm Hfs. by apply (merge_yaml_again (VMap new)). Qed.

Lemma merge_yaml_rerun_witness :
  let existing := [("Zed", int 1); ("m", VMap [("q", VList [str "B"])]);
                   ("s", VList [int 3])] in
  let new := [("a", VList [str "x"; str "Y"]);
              ("m", VMap [("k", int 2); ("q", VList [str "a"; str "b"])]);
              ("s", str "now a scalar")] in
  merge_yaml (merge_yaml existing new) new = merge_yaml existing new.
Proof.
  intros existing new. apply (merge_yaml_rerun existing new).
  - simpl. repeat split; repeat constructor.
  - reflexivity.
Defined.

(** * Further properties of the file pipeline *)

(** ** Lines of a text file *)

Local Ltac step :=
  cbn [universal_newlines contains_char split_nl lstrip rstrip String.length];
  change (ascii_of_N 13) with cr; change (ascii_of_N 10) with lf.

Lemma append_cons (c : ascii) (s t : string) :
  String c s +:+ t = String c (s +:+ t).
Proof. reflexivity. Qed.

Lemma append_empty (t : string) : "" +:+ t = t.
Proof. reflexivity. Qed.

Lemma contains_char_append (c : ascii) (s t : string) :
  contains_char c (s +:+ t) = contains_char c s || contains_char c t.
Proof.
  induction s as [|d s IH]; [done|].
  rewrite append_cons. step. by rewrite IH, orb_assoc.
Qed.

Lemma universal_newlines_id (s : string) :
  contains_char cr s = false -> universal_newlines s = s.
Proof.
  induction s as [|c s IH]; [done|]. step.
  rewrite Ascii.eqb_sym. intros [Hc Hs]%orb_false_elim.
  rewrite Hc. by rewrite IH.
Qed.

Lemma universal_newlines_no_cr (s : string) :
  contains_char cr (universal_newlines s) = false.
Proof.
  induction s as [|c s IH]; [done|]. step.
  destruct (Ascii.eqb_spec c cr) as [->|Hne].
  - destruct s as [|d s]; [done|].
    destruct (Ascii.eqb d lf); [exact IH|].
    cbn [contains_char]. rewrite IH. reflexivity.
  - step. rewrite IH, orb_false_r. apply Ascii.eqb_neq. congruence.
Qed.

Lemma split_nl_nonempty (s : string) : split_nl s <> [].
Proof.
  induction s as [|c s IH]; [done|]. step.
  destruct (Ascii.eqb c lf); [done|].
  by destruct (split_nl s).
Qed.

Lemma split_nl_line (e rest : string) :
  contains_char lf e = false ->
  split_nl (e +:+ String lf rest) = e :: split_nl rest.
Proof.
  induction e as [|c e IH]; [done|]. step.
  rewrite Ascii.eqb_sym. intros [Hc He]%orb_false_elim.
  rewrite append_cons. step. rewrite Hc, (IH He). done.
Qed.

Lemma split_nl_no_lf (s line : string) :
  line ∈ split_nl s -> contains_char lf line = false.
Proof.
  revert line. induction s as [|c s IH]; intros line; step.
  - by intros ->%list_elem_of_singleton.
  - destruct (Ascii.eqb_spec c lf) as [->|Hne].
    + intros [->|H]%elem_of_cons; [done|by apply IH].
    + pose proof (split_nl_nonempty s) as Hs.
      destruct (split_nl s) as [|l rest]; [done|].
      intros [->|H]%elem_of_cons.
      * step. rewrite (IH l) by left. rewrite orb_false_r.
        apply Ascii.eqb_neq. congruence.
      * apply IH. by right.
Qed.

Lemma split_nl_chars (c : ascii) (s line : string) :
  line ∈ split_nl s -> contains_char c line = true -> contains_char c s = true.
Proof.
  revert line. induction s as [|d s IH]; intros line; step.
  - by intros ->%list_elem_of_singleton.
  - destruct (Ascii.eqb d lf).
    + intros [->|H]%elem_of_cons; [done|]. intros Hc.
      rewrite (IH line H Hc). apply orb_true_r.
    + pose proof (split_nl_nonempty s) as Hs.
      destruct (split_nl s) as [|l rest]; [done|].
      intros [->|H]%elem_of_cons; step.
      * intros [->|Hc]%orb_prop; [done|].
        rewrite (IH l); [apply orb_true_r|left|done].
      * intros Hc. rewrite (IH line); [apply orb_true_r|by right|done].
Qed.

Lemma lstrip_chars (c : ascii) (s : string) :
  contains_char c (lstrip s) = true -> contains_char c s = true.
Proof.
  induction s as [|d s IH]; [done|]. step.
  destruct (is_space d); [|done]. intros H. rewrite (IH H). apply orb_true_r.
Qed.

Lemma rstrip_chars (c : ascii) (s : string) :
  contains_char c (rstrip s) = true -> contains_char c s = true.
Proof.
  induction s as [|d s IH]; [done|]. step.
  destruct (rstrip s) as [|e r] eqn:E.
  - destruct (is_space d); [done|]. step. rewrite orb_false_r.
    intros ->. done.
  - revert IH. step. intros IH [->|H]%orb_prop; [done|].
    rewrite (IH H). apply orb_true_r.
Qed.

Lemma py_strip_chars (c : ascii) (s : string) :
  contains_char c (py_strip s) = false \/ contains_char c s = true.
Proof.
  destruct (contains_char c (py_strip s)) eqn:E; [right|by left].
  by apply lstrip_chars, rstrip_chars.
Qed.

Lemma rstrip_idem (s : string) : rstrip (rstrip s) = rstrip s.
Proof.
  induction s as [|c s IH]; [done|]. simpl.
  destruct (rstrip s) as [|e r] eqn:E.
  - destruct (is_space c) eqn:Hc; [done|]. simpl. by rewrite Hc.
  - change (rstrip (String c (String e r)))
      with (match rstrip (String e r) with
            | EmptyString => if is_space c then EmptyString else String c EmptyString
            | r' => String c r'
            end).
    by rewrite IH.
Qed.

Lemma rstrip_head (c : ascii) (s : string) :
  is_space c = false -> exists r, rstrip (String c s) = String c r.
Proof.
  intros Hc. simpl. destruct (rstrip s); rewrite ?Hc; eauto.
Qed.

Lemma lstrip_head (s : string) :
  lstrip s = "" \/ exists c r, lstrip s = String c r /\ is_space c = false.
Proof.
  induction s as [|c s IH]; [by left|]. simpl.
  destruct (is_space c) eqn:Hc; [done|]. right. eauto.
Qed.

Lemma py_strip_idem (s : string) : py_strip (py_strip s) = py_strip s.
Proof.
  unfold py_strip.
  assert (lstrip (rstrip (lstrip s)) = rstrip (lstrip s)) as ->.
  { destruct (lstrip_head s) as [->|(c & r & -> & Hc)]; [done|].
    destruct (rstrip_head c r Hc) as [r' ->]. simpl. by rewrite Hc. }
  apply rstrip_idem.
Qed.

Lemma py_strip_nonspace_ends (s : string) :
  py_strip s = s ->
  match s with
  | EmptyString => True
  | String c _ => is_space c = false
  end.
Proof.
  destruct s as [|c s]; [done|]. unfold py_strip. simpl.
  destruct (is_space c) eqn:Hc; [|done]. intros H.
  assert (String.length (rstrip (lstrip s)) <= String.length s) as Hlen.
  { assert (forall t, String.length (rstrip t) <= String.length t) as Hr.
    { induction t as [|d t IHt]; simpl; [done|].
      destruct (rstrip t); [destruct (is_space d)|]; simpl in *; lia. }
    assert (forall t, String.length (lstrip t) <= String.length t) as Hl.
    { induction t as [|d t IHt]; simpl; [done|].
      destruct (is_space d); simpl; lia. }
    etrans; [apply Hr|apply Hl]. }
  rewrite H in Hlen. simpl in Hlen. lia.
Qed.

Lemma clean_entry_spec (s : string) :
  clean_entry s = true
  <-> s <> "" /\ py_strip s = s
      /\ contains_char lf s = false /\ contains_char cr s = false.
Proof.
  unfold clean_entry, nonempty.
  rewrite !andb_true_iff, !negb_true_iff, String.eqb_neq, String.eqb_eq.
  tauto.
Qed.

(** Every line that reading a file yields is a clean entry. *)
Lemma file_lines_clean (content : string) :
  Forall (fun e => clean_entry e = true)
         (file_lines (universal_newlines content)).
Proof.
  unfold file_lines. apply Forall_forall. intros e He.
  apply list_elem_of_filter in He as [Hne He].
  apply list_elem_of_In, in_map_iff in He as (line & <- & Hline%list_elem_of_In).
  apply clean_entry_spec. split_and!.
  - unfold nonempty in Hne. apply Is_true_true in Hne.
    by apply negb_true_iff, String.eqb_neq in Hne.
  - apply py_strip_idem.
  - destruct (py_strip_chars lf line) as [H|H]; [done|].
    by rewrite (split_nl_no_lf _ _ Hline) in H.
  - destruct (py_strip_chars cr line) as [H|H]; [done|].
    apply (split_nl_chars cr _ _ Hline) in H.
    by rewrite universal_newlines_no_cr in H.
Qed.

Lemma lines_text_cons (e : string) (l : list string) :
  lines_text (e :: l) = e +:+ String lf (lines_text l).
Proof.
  assert (forall a b c : string, (a +:+ b) +:+ c = a +:+ (b +:+ c)) as Hassoc.
  { induction a as [|x a IH]; intros b c; [done|].
    rewrite !append_cons. by rewrite IH. }
  destruct l as [|e' l]; [reflexivity|].
  unfold lines_text. cbn [map String.concat].
  rewrite Hassoc, append_empty. reflexivity.
Qed.

Lemma split_nl_lines_text (l : list string) :
  Forall (fun e => contains_char lf e = false) l ->
  split_nl (lines_text l) = l ++ [""].
Proof.
  induction 1 as [|e l He _ IH]; [done|].
  rewrite lines_text_cons, (split_nl_line _ _ He), IH. done.
Qed.

Lemma lines_text_no_cr (l : list string) :
  Forall (fun e => contains_char cr e = false) l ->
  contains_char cr (lines_text l) = false.
Proof.
  induction 1 as [|e l He _ IH]; [done|].
  rewrite lines_text_cons, contains_char_append. step. by rewrite He, IH.
Qed.

Lemma file_lines_lines_text (l : list string) :
  Forall (fun e => clean_entry e = true) l ->
  file_lines (universal_newlines (lines_text l)) = l.
Proof.
  intros Hl.
  assert (Forall (fun e => e <> "" /\ py_strip e = e
                           /\ contains_char lf e = false
                           /\ contains_char cr e = false) l) as Hl'.
  { eapply Forall_impl; [exact Hl|]. intros e. apply clean_entry_spec. }
  rewrite universal_newlines_id.
  - unfold file_lines. rewrite split_nl_lines_text.
    + rewrite map_app, filter_app.
      assert (filter (fun l => nonempty l) (map py_strip [""]) = []) as ->
        by done.
      rewrite app_nil_r.
      induction Hl' as [|e r (Hne & Hs & _) _ IH]; [done|].
      apply Forall_cons in Hl as [_ Hl]. cbn [map]. rewrite Hs.
      rewrite filter_cons_True.
      * f_equal. by apply IH.
      * unfold nonempty. apply Is_true_true, negb_true_iff.
        by apply String.eqb_neq.
    + eapply Forall_impl; [exact Hl'|]. by intros e (_ & _ & ? & _).
  - apply lines_text_no_cr. eapply Forall_impl; [exact Hl'|].
    by intros e (_ & _ & _ & ?).
Qed.

(** X11.  What the line-list tool writes, it reads back: a file holding
    clean entries one per line yields exactly these entries, and every entry
    read from any file is clean. *)
Theorem line_file_round_trip (entries : list string) (content : string) :
  Forall (fun e => clean_entry e = true) (file_lines (universal_newlines content))
  /\ (Forall (fun e => clean_entry e = true) entries ->
      file_lines (universal_newlines (lines_text entries)) = entries).
Proof. split; [apply file_lines_clean|apply file_lines_lines_text]. Qed.

Lemma line_file_round_trip_witness :
  file_lines (universal_newlines (lines_text ["Beta"; "alpha beta"; "gamma"]))
  = ["Beta"; "alpha beta"; "gamma"].
Proof.
  apply (line_file_round_trip ["Beta"; "alpha beta"; "gamma"] "").
  by repeat constructor.
Defined.

(** ** [update_blob_constant] *)

Section PublishFacts.
Context {L : Libs}.

Lemma path_exists_eval (path : string) (w : World) :
  path_exists path w
  = (Ok (match file_text w path with Some _ => true | None => false end), w).
Proof.
  unfold path_exists, file_text.
  by destruct (files w !! path).
Qed.

Lemma update_blob_constant_cases
    (blobs_js_path constant_name compressed_value : string) (w : World) :
  exists r w',
    update_blob_constant blobs_js_path constant_name compressed_value w = (r, w')
    /\ (w' = w
        \/ (r = Ok true
            /\ exists new_content,
                 w' = {| files := <[blobs_js_path := new_content]> (files w);
                         written := written w ++ [blobs_js_path] |}))
    /\ (r = Ok true ->
        exists content,
          file_text w blobs_js_path = Some content
          /\ re_search (blob_pattern constant_name) content = true)
    /\ (r = Ok false ->
        file_text w blobs_js_path = None
        \/ exists content,
             file_text w blobs_js_path = Some content
             /\ re_search (blob_pattern constant_name) content = false).
Proof.
  unfold update_blob_constant, bind, ret, raise. rewrite path_exists_eval.
  unfold read_text.
  destruct (file_text w blobs_js_path) as [content|] eqn:Hfile; cbn [negb];
    rewrite ?Hfile.
  2: { eexists _, _. split; [done|]. split_and!; [by left|done|by left]. }
  destruct (re_search (blob_pattern constant_name) content) eqn:Hsearch;
    cbn [negb].
  2: { eexists _, _. split; [done|]. split_and!; [by left|done|].
       intros _. right. eauto. }
  destruct (re_sub _ _ content) as [new_content|].
  2: { eexists _, _. split; [done|]. by split_and!; [left|..]. }
  destruct (String.eqb new_content content).
  { eexists _, _. split; [done|]. split_and!; [by left|eauto|done]. }
  unfold write_text. destruct (String.eqb blobs_js_path "").
  { eexists _, _. split; [done|]. by split_and!; [left|..]. }
  eexists _, _. split; [done|]. split_and!; [|eauto|done].
  right. split; [done|]. eauto.
Qed.

Lemma update_blob_constant_raise_found
    (blobs_js_path constant_name compressed_value : string) (w w' : World)
    (e : exn) :
  update_blob_constant blobs_js_path constant_name compressed_value w
  = (Raise e, w') ->
  exists content,
    file_text w blobs_js_path = Some content
    /\ re_search (blob_pattern constant_name) content = true.
Proof.
  unfold update_blob_constant, bind, ret, raise. rewrite path_exists_eval.
  unfold read_text.
  destruct (file_text w blobs_js_path) as [content|] eqn:Hfile; cbn [negb];
    rewrite ?Hfile; [|done].
  destruct (re_search (blob_pattern constant_name) content) eqn:Hsearch;
    cbn [negb]; [eauto|done].
Qed.

(** X12.  [update_blob_constant] touches no file but [blobs.js]; unless it
    answers [True] it changes nothing at all; it answers [True] only when
    the file holds the constant, and [False] only when the file is missing or
    does not hold it. *)
Theorem update_blob_constant_effect
    (blobs_js_path constant_name compressed_value : string) (w : World) :
  let result :=
    update_blob_constant blobs_js_path constant_name compressed_value w in
  (forall path, path <> blobs_js_path ->
     files (snd result) !! path = files w !! path)
  /\ (fst result <> Ok true -> snd result = w)
  /\ (fst result = Ok true ->
      exists content,
        file_text w blobs_js_path = Some content
        /\ re_search (blob_pattern constant_name) content = true)
  /\ (fst result = Ok false ->
      file_text w blobs_js_path = None
      \/ exists content,
           file_text w blobs_js_path = Some content
           /\ re_search (blob_pattern constant_name) content = false).
Proof.
  intros result. subst result.
  destruct (update_blob_constant_cases blobs_js_path constant_name
              compressed_value w) as (r & w' & -> & Hw & Htrue & Hfalse).
  cbn [fst snd]. split_and!; [| |done..].
  - intros path Hne. destruct Hw as [->|(_ & nc & ->)]; [done|].
    cbn [files]. by rewrite lookup_insert_ne.
  - intros Hr. by destruct Hw as [->|[? _]].
Qed.

Lemma update_blob_constant_frame
    (blobs_js_path constant_name compressed_value path : string) (w : World) :
  path <> blobs_js_path ->
  files (snd (update_blob_constant blobs_js_path constant_name
                compressed_value w)) !! path
  = files w !! path.
Proof.
  intros Hne.
  destruct (update_blob_constant_cases blobs_js_path constant_name
              compressed_value w) as (r & w' & -> & Hw & _).
  cbn [snd]. destruct Hw as [->|(_ & nc & ->)]; [done|].
  cbn [files]. by rewrite lookup_insert_ne.
Qed.

End PublishFacts.

(** ** [extract_and_merge] *)

Lemma sorted_entries_elem (s : gset string) (x : string) :
  x ∈ sorted_entries s <-> x ∈ s.
Proof. unfold sorted_entries. by rewrite sorted_str_elem, elem_of_elements. Qed.

Lemma sorted_entries_NoDup (s : gset string) : NoDup (sorted_entries s).
Proof.
  unfold sorted_entries. rewrite (sorted_str_perm (fun x => x)).
  apply NoDup_elements.
Qed.

Lemma list_to_set_sorted_entries (s : gset string) :
  list_to_set (sorted_entries s) = s.
Proof.
  apply set_eq. intros x. by rewrite elem_of_list_to_set, sorted_entries_elem.
Qed.

Lemma nothing_new_size (E N : gset string) :
  (Z.of_nat (size (E ∪ N)) - Z.of_nat (size E) =? 0)%Z = true <-> N ⊆ E.
Proof.
  rewrite Z.eqb_eq. split.
  - intros H.
    assert (E = E ∪ N) as Heq.
    { apply set_subseteq_size_eq; [apply union_subseteq_l|lia]. }
    rewrite Heq. apply union_subseteq_r.
  - intros H. rewrite (comm_L (∪)), (subseteq_union_1_L _ _ H). lia.
Qed.

Section ListFacts.
Context {L : Libs}.

Lemma compressed_path_nonempty (output_text : string)
    (compressed_output : option string) :
  compressed_path output_text compressed_output <> "".
Proof.
  unfold compressed_path. destruct compressed_output as [p|]; simpl.
  - destruct (String.eqb_spec p ""); simpl; [by apply append_nonempty|done].
  - by apply append_nonempty.
Qed.

Lemma extract_and_merge_eval
    (input_yaml output_text : string) (compressed_output : option string)
    (extract_func : Value -> Outcome (list string))
    (blob_constant blobs_js_path : option string)
    (w : World) (text : string) (data : Value) (extracted : list string) :
  file_text w input_yaml = Some text ->
  yaml_safe_load text = Some data ->
  extract_func data = Ok extracted ->
  output_text <> "" ->
  extract_and_merge input_yaml output_text compressed_output extract_func
    blob_constant blobs_js_path w
  = if decide (list_to_set extracted ⊆ entries_on_disk w output_text)
    then (Ok tt, w)
    else
      let w2 := after_writes w output_text compressed_output extracted in
      if given blob_constant && given blobs_js_path && has_update_blobs
      then
        let b64 :=
          compress_b64
            (join "," (sorted_entries
                         (entries_on_disk w output_text ∪ list_to_set extracted))) in
        match update_blob_constant (or_empty blobs_js_path)
                (or_empty blob_constant) b64 w2 with
        | (Ok _, w3) => (Ok tt, w3)
        | (Raise e, w3) => (Raise e, w3)
        end
      else (Ok tt, w2).
Proof.
  intros Hfile Hload Hextract Hout.
  unfold extract_and_merge, bind, read_text, lift.
  rewrite Hfile, Hload, Hextract, existing_entries_eval.
  pose proof (nothing_new_size (entries_on_disk w output_text)
                (list_to_set extracted)) as Hsize.
  destruct (decide (list_to_set extracted ⊆ entries_on_disk w output_text))
    as [Hsub|Hsub].
  - apply Hsize in Hsub. by rewrite Hsub.
  - destruct (Z.eqb _ 0) eqn:E; [exfalso; by apply Hsub, Hsize|].
    unfold write_text, ret. apply String.eqb_neq in Hout. rewrite Hout.
    fold (compressed_path output_text compressed_output).
    pose proof (compressed_path_nonempty output_text compressed_output) as Hc.
    apply String.eqb_neq in Hc. rewrite Hc. cbn [files written].
    rewrite <- app_assoc. cbn [app].
    fold (lines_text (sorted_entries
            (entries_on_disk w output_text ∪ list_to_set extracted))).
    fold (after_writes w output_text compressed_output extracted).
    by destruct (given blob_constant && given blobs_js_path && has_update_blobs).
Qed.

(** X13.  When the extraction brings new entries, the text file holds, one
    per line, the entries of the old file and the extracted ones, each once,
    in increasing code-point order, and the compressed file holds the
    compression of the same entries joined by commas. *)
Theorem extract_and_merge_new_entries
    (input_yaml output_text : string) (compressed_output : option string)
    (extract_func : Value -> Outcome (list string))
    (blob_constant blobs_js_path : option string)
    (w : World) (text : string) (data : Value) (extracted : list string) :
  let w' := snd (extract_and_merge input_yaml output_text compressed_output
                   extract_func blob_constant blobs_js_path w) in
  let compressed_txt := compressed_path output_text compressed_output in
  file_text w input_yaml = Some text ->
  yaml_safe_load text = Some data ->
  extract_func data = Ok extracted ->
  ~ list_to_set extracted ⊆ entries_on_disk w output_text ->
  output_text <> "" ->
  compressed_txt <> output_text ->
  or_empty blobs_js_path <> output_text ->
  or_empty blobs_js_path <> compressed_txt ->
  exists all_entries,
    files w' !! output_text = Some (lines_text all_entries)
    /\ files w' !! compressed_txt = Some (compress_b64 (join "," all_entries))
    /\ sortedb (fun x => x) all_entries = true
    /\ NoDup all_entries
    /\ (forall x, x ∈ all_entries
                  <-> x ∈ entries_on_disk w output_text \/ x ∈ extracted).
Proof.
  intros w' compressed_txt Hfile Hload Hextract Hnew Hout Hc Hb1 Hb2.
  exists (sorted_entries (entries_on_disk w output_text ∪ list_to_set extracted)).
  assert (forall path, path <> or_empty blobs_js_path ->
            files w' !! path
            = files (after_writes w output_text compressed_output extracted)
                !! path) as Hframe.
  { intros path Hpath. unfold w'.
    rewrite (extract_and_merge_eval _ _ _ _ _ _ _ _ _ _
               Hfile Hload Hextract Hout).
    rewrite decide_False by done. cbv zeta.
    destruct (given blob_constant && given blobs_js_path && has_update_blobs);
      [|done].
    pose proof (update_blob_constant_frame (or_empty blobs_js_path)
                  (or_empty blob_constant)
                  (compress_b64 (join "," (sorted_entries
                     (entries_on_disk w output_text ∪ list_to_set extracted))))
                  path (after_writes w output_text compressed_output extracted)
                  Hpath) as Hfr.
    by destruct (update_blob_constant _ _ _ _) as [[?|?] ?]. }
  split_and!.
  - rewrite Hframe by done. unfold after_writes. cbn [files].
    rewrite lookup_insert_ne by done. apply lookup_insert_eq.
  - rewrite Hframe by done. unfold after_writes. cbn [files].
    apply lookup_insert_eq.
  - apply sorted_str_sorted.
  - apply sorted_entries_NoDup.
  - intros x. rewrite sorted_entries_elem, elem_of_union, elem_of_list_to_set.
    done.
Qed.

Lemma extract_and_merge_skip
    (input_yaml output_text : string) (compressed_output : option string)
    (extract_func : Value -> Outcome (list string))
    (blob_constant blobs_js_path : option string)
    (w : World) (text : string) (data : Value) (extracted : list string) :
  file_text w input_yaml = Some text ->
  yaml_safe_load text = Some data ->
  extract_func data = Ok extracted ->
  list_to_set extracted ⊆ entries_on_disk w output_text ->
  extract_and_merge input_yaml output_text compressed_output extract_func
    blob_constant blobs_js_path w
  = (Ok tt, w).
Proof.
  intros Hfile Hload Hextract Hsub.
  unfold extract_and_merge, bind, read_text, lift.
  rewrite Hfile, Hload, Hextract, existing_entries_eval.
  by rewrite (proj2 (nothing_new_size _ _) Hsub).
Qed.

(** X14.  A second run on the same save file is a no-op: after any run that
    extracted clean entries, running again with the same arguments writes
    nothing and leaves the world as the first run left it. *)
Theorem extract_and_merge_rerun
    (input_yaml output_text : string) (compressed_output : option string)
    (extract_func : Value -> Outcome (list string))
    (blob_constant blobs_js_path : option string)
    (w : World) (text : string) (data : Value) (extracted : list string) :
  let w' := snd (extract_and_merge input_yaml output_text compressed_output
                   extract_func blob_constant blobs_js_path w) in
  let compressed_txt := compressed_path output_text compressed_output in
  file_text w input_yaml = Some text ->
  yaml_safe_load text = Some data ->
  extract_func data = Ok extracted ->
  Forall (fun e => clean_entry e = true) extracted ->
  output_text <> "" ->
  input_yaml <> output_text -> input_yaml <> compressed_txt ->
  compressed_txt <> output_text ->
  or_empty blobs_js_path <> input_yaml ->
  or_empty blobs_js_path <> output_text ->
  extract_and_merge input_yaml output_text compressed_output extract_func
    blob_constant blobs_js_path w'
  = (Ok tt, w').
Proof.
  intros w' compressed_txt Hfile Hload Hextract Hclean Hout Hio Hic Hco Hbi Hbo.
  destruct (decide (list_to_set extracted ⊆ entries_on_disk w output_text))
    as [Hsub|Hnew].
  { assert (w' = w) as ->; [|by eapply extract_and_merge_skip].
    unfold w'. by erewrite extract_and_merge_skip. }
  assert (forall path, path <> or_empty blobs_js_path ->
            files w' !! path
            = files (after_writes w output_text compressed_output extracted)
                !! path) as Hframe.
  { intros path Hpath. unfold w'.
    rewrite (extract_and_merge_eval _ _ _ _ _ _ _ _ _ _
               Hfile Hload Hextract Hout).
    rewrite decide_False by done. cbv zeta.
    destruct (given blob_constant && given blobs_js_path && has_update_blobs);
      [|done].
    pose proof (update_blob_constant_frame (or_empty blobs_js_path)
                  (or_empty blob_constant)
                  (compress_b64 (join "," (sorted_entries
                     (entries_on_disk w output_text ∪ list_to_set extracted))))
                  path (after_writes w output_text compressed_output extracted)
                  Hpath) as Hfr.
    by destruct (update_blob_constant _ _ _ _) as [[?|?] ?]. }
  set (all := sorted_entries
                (entries_on_disk w output_text ∪ list_to_set extracted)) in *.
  assert (file_text w' input_yaml = Some text) as Hfile'.
  { unfold file_text in *. rewrite Hframe by done.
    unfold after_writes. cbn [files]. by rewrite !lookup_insert_ne. }
  assert (entries_on_disk w' output_text
          = entries_on_disk w output_text ∪ list_to_set extracted) as Hdisk.
  { unfold entries_on_disk at 1, file_text. rewrite Hframe by done.
    unfold after_writes. cbn [files].
    rewrite lookup_insert_ne by done. rewrite lookup_insert_eq. simpl.
    unfold read_entries. fold all. rewrite file_lines_lines_text.
    - apply list_to_set_sorted_entries.
    - apply Forall_forall. intros e He%sorted_entries_elem.
      apply elem_of_union in He as [He|He].
      + unfold entries_on_disk in He.
        destruct (file_text w output_text) as [content|] eqn:Hc;
          [|by apply not_elem_of_empty in He].
        unfold read_entries in He. apply elem_of_list_to_set in He.
        unfold file_text in Hc.
        destruct (files w !! output_text) as [raw|]; [|done].
        injection Hc as <-.
        pose proof (file_lines_clean raw) as Hall.
        rewrite Forall_forall in Hall. by apply Hall.
      + apply elem_of_list_to_set in He. rewrite Forall_forall in Hclean.
        by apply Hclean. }
  eapply extract_and_merge_skip; [done..|]. rewrite Hdisk.
  apply union_subseteq_r.
Qed.

End ListFacts.

Lemma extract_and_merge_new_entries_witness :
  let w := mkWorld {[ "save.yaml" := "state: {}";
                      "rewards.txt" := "alpha" +:+ nl +:+ "beta" +:+ nl ]} [] in
  exists all_entries,
    files (snd (@extract_and_merge toy_libs "save.yaml" "rewards.txt" None
                  (fun _ => Ok ["gamma"; "alpha"]) None None w)) !! "rewards.txt"
    = Some (lines_text all_entries)
    /\ files (snd (@extract_and_merge toy_libs "save.yaml" "rewards.txt" None
                     (fun _ => Ok ["gamma"; "alpha"]) None None w))
         !! "rewards_compressed.txt"
       = Some (@compress_b64 toy_libs (join "," all_entries))
    /\ sortedb (fun x => x) all_entries = true
    /\ NoDup all_entries
    /\ (forall x, x ∈ all_entries
                  <-> x ∈ entries_on_disk w "rewards.txt"
                      \/ x ∈ ["gamma"; "alpha"]).
Proof.
  intros w.
  apply (@extract_and_merge_new_entries toy_libs "save.yaml" "rewards.txt" None
           (fun _ => Ok ["gamma"; "alpha"]) None None w
           "state: {}" toy_document ["gamma"; "alpha"]);
    try reflexivity; try done.
  intros H.
  assert (bool_decide ("gamma" ∈ entries_on_disk w "rewards.txt") = false)
    as Hf by (by vm_compute).
  apply bool_decide_eq_false in Hf. apply Hf, H.
  apply elem_of_list_to_set. left.
Defined.

Lemma extract_and_merge_rerun_witness :
  let w := mkWorld {[ "save.yaml" := "state: {}";
                      "rewards.txt" := "alpha" +:+ nl +:+ "beta" +:+ nl;
                      "blobs.js" := "const REWARDS_COMPRESSED = 'x';" ]} [] in
  let w' := snd (@extract_and_merge toy_libs "save.yaml" "rewards.txt" None
                   (fun _ => Ok ["gamma"; "alpha"]) (Some "REWARDS_COMPRESSED")
                   (Some "blobs.js") w) in
  @extract_and_merge toy_libs "save.yaml" "rewards.txt" None
    (fun _ => Ok ["gamma"; "alpha"]) (Some "REWARDS_COMPRESSED")
    (Some "blobs.js") w'
  = (Ok tt, w').
Proof.
  intros w.
  apply (@extract_and_merge_rerun toy_libs "save.yaml" "rewards.txt" None
           (fun _ => Ok ["gamma"; "alpha"]) (Some "REWARDS_COMPRESSED")
           (Some "blobs.js") w "state: {}" toy_document ["gamma"; "alpha"]);
    try reflexivity; try done.
  by repeat constructor.
Defined.

(** ** [write_yaml_and_compressed] and the [__main__] block *)

Section YamlFacts.
Context {L : Libs}.

Lemma write_yaml_and_compressed_eval (obj : Value) (output_yaml : string)
    (compressed : bool) (blob_constant blobs_js_path : option string)
    (w : World) :
  write_yaml_and_compressed obj output_yaml compressed blob_constant
    blobs_js_path w
  = match document_to_write w output_yaml obj with
    | Raise e => (Raise e, w)
    | Ok doc =>
        if String.eqb output_yaml "" then (Raise FileNotFoundError, w) else
        let w1 := {| files := <[output_yaml := yaml_safe_dump doc]> (files w);
                     written := written w ++ [output_yaml] |} in
        if compressed then
          let compressed_txt :=
            path_without_suffix output_yaml +:+ "_compressed.txt" in
          let b64 := compress_b64 (yaml_safe_dump doc) in
          let w2 := {| files := <[compressed_txt := b64]> (files w1);
                       written := written w1 ++ [compressed_txt] |} in
          if given blob_constant && given blobs_js_path && has_update_blobs
          then
            match update_blob_constant (or_empty blobs_js_path)
                    (or_empty blob_constant) b64 w2 with
            | (Ok _, w3) => (Ok tt, w3)
            | (Raise e, w3) => (Raise e, w3)
            end
          else (Ok tt, w2)
        else (Ok tt, w1)
    end.
Proof.
  unfold write_yaml_and_compressed, document_to_write, bind.
  rewrite path_exists_eval. unfold read_text, nonempty, lift, ret, raise.
  assert (forall doc,
    (let (o, w') := write_text output_yaml (yaml_safe_dump doc) w in
     match o with
     | Ok _ =>
         (if compressed
          then
            fun w0 =>
              let (o0, w'0) :=
                write_text (path_without_suffix output_yaml +:+ "_compressed.txt")
                  (compress_b64 (yaml_safe_dump doc)) w0 in
              match o0 with
              | Ok _ =>
                  (if given blob_constant && given blobs_js_path
                      && has_update_blobs
                   then
                     fun w1 =>
                       let (o1, w'1) :=
                         update_blob_constant (or_empty blobs_js_path)
                           (or_empty blob_constant)
                           (compress_b64 (yaml_safe_dump doc)) w1 in
                       match o1 with
                       | Ok _ => (Ok tt, w'1)
                       | Raise e => (Raise e, w'1)
                       end
                   else fun w1 => (Ok tt, w1)) w'0
              | Raise e => (Raise e, w'0)
              end
          else fun w0 => (Ok tt, w0)) w'
     | Raise e => (Raise e, w')
     end)
    = if String.eqb output_yaml "" then (Raise FileNotFoundError, w) else
      let w1 := {| files := <[output_yaml := yaml_safe_dump doc]> (files w);
                   written := written w ++ [output_yaml] |} in
      if compressed then
        let compressed_txt :=
          path_without_suffix output_yaml +:+ "_compressed.txt" in
        let b64 := compress_b64 (yaml_safe_dump doc) in
        let w2 := {| files := <[compressed_txt := b64]> (files w1);
                     written := written w1 ++ [compressed_txt] |} in
        if given blob_constant && given blobs_js_path && has_update_blobs
        then
          match update_blob_constant (or_empty blobs_js_path)
                  (or_empty blob_constant) b64 w2 with
          | (Ok _, w3) => (Ok tt, w3)
          | (Raise e, w3) => (Raise e, w3)
          end
        else (Ok tt, w2)
      else (Ok tt, w1)) as Htail.
  { intros doc. unfold write_text.
    destruct (String.eqb output_yaml ""); [done|].
    destruct compressed; [|done].
    assert (String.eqb (path_without_suffix output_yaml +:+ "_compressed.txt") ""
            = false) as -> by (by apply String.eqb_neq, append_nonempty).
    cbv zeta.
    destruct (given blob_constant && given blobs_js_path && has_update_blobs);
      [|done].
    by destruct (update_blob_constant _ _ _ _) as [[?|?] ?]. }
  destruct (String.eqb output_yaml "") eqn:Hout; cbn [negb andb].
  { apply (Htail obj). }
  destruct (file_text w output_yaml) as [text|] eqn:Hfile.
  2: { apply (Htail obj). }
  rewrite Hfile. destruct (yaml_safe_load text) as [loaded|]; [|done].
  destruct (merge_yaml_any _ obj) as [doc|e]; [|done].
  apply (Htail doc).
Qed.

(** X15.  After a successful call with compression, the YAML file and the
    compressed file hold the same document: the serialisation of the
    document to write, and the compression of that serialisation. *)
Theorem write_yaml_and_compressed_artifacts (obj : Value) (output_yaml : string)
    (blob_constant blobs_js_path : option string) (w w' : World) :
  let compressed_txt := path_without_suffix output_yaml +:+ "_compressed.txt" in
  write_yaml_and_compressed obj output_yaml true blob_constant blobs_js_path w
  = (Ok tt, w') ->
  compressed_txt <> output_yaml ->
  or_empty blobs_js_path <> output_yaml ->
  or_empty blobs_js_path <> compressed_txt ->
  exists doc,
    document_to_write w output_yaml obj = Ok doc
    /\ files w' !! output_yaml = Some (yaml_safe_dump doc)
    /\ files w' !! compressed_txt = Some (compress_b64 (yaml_safe_dump doc)).
Proof.
  intros compressed_txt Hrun Hc Hb1 Hb2.
  rewrite write_yaml_and_compressed_eval in Hrun.
  destruct (document_to_write w output_yaml obj) as [doc|e]; [|done].
  exists doc. split; [done|].
  destruct (String.eqb output_yaml ""); [done|]. cbv zeta in Hrun.
  fold compressed_txt in Hrun.
  set (w2 := {| files := <[compressed_txt := compress_b64 (yaml_safe_dump doc)]>
                           (<[output_yaml := yaml_safe_dump doc]> (files w));
                written := (written w ++ [output_yaml]) ++ [compressed_txt] |})
    in *.
  assert (forall path, path <> or_empty blobs_js_path ->
            files w' !! path = files w2 !! path) as Hframe.
  { intros path Hpath.
    destruct (given blob_constant && given blobs_js_path && has_update_blobs).
    - pose proof (update_blob_constant_frame (or_empty blobs_js_path)
                    (or_empty blob_constant)
                    (compress_b64 (yaml_safe_dump doc)) path w2 Hpath) as Hfr.
      destruct (update_blob_constant _ _ _ _) as [[?|?] w3]; [|done].
      by injection Hrun as <-.
    - by injection Hrun as <-. }
  rewrite !Hframe by done. unfold w2. cbn [files]. split.
  - rewrite lookup_insert_ne by done. apply lookup_insert_eq.
  - apply lookup_insert_eq.
Qed.

(** X16.  A merge that fails writes nothing: when the output file does not
    parse, or holds a document that is no mapping while [obj] has entries,
    or [obj] itself is no mapping, the call raises and the world is as
    before. *)
Theorem write_yaml_and_compressed_failed_merge (obj : Value)
    (output_yaml text : string) (compressed : bool)
    (blob_constant blobs_js_path : option string) (w : World) :
  output_yaml <> "" ->
  file_text w output_yaml = Some text ->
  match yaml_safe_load text with
  | None => True
  | Some loaded =>
      shape obj <> ShMapping
      \/ (py_truthy loaded = true /\ shape loaded <> ShMapping
          /\ obj <> VMap [])
  end ->
  exists e,
    write_yaml_and_compressed obj output_yaml compressed blob_constant
      blobs_js_path w
    = (Raise e, w).
Proof.
  intros Hout Hfile Hbad. rewrite write_yaml_and_compressed_eval.
  unfold document_to_write, nonempty.
  apply String.eqb_neq in Hout. rewrite Hout, Hfile. cbn [negb].
  destruct (yaml_safe_load text) as [loaded|]; [|eauto].
  destruct Hbad as [Hobj|(Ht & Hl & Hobj)].
  - destruct obj; [eauto..|done].
  - rewrite Ht. destruct obj as [s|items|entries]; [eauto..|].
    destruct loaded as [s|items|entries']; [| |done];
      destruct entries; try done; eauto.
Qed.

(** X17.  [extract_yaml.py] fails before it writes: with no output selected,
    or an input file that is missing or does not parse, the exit status is 1
    and no file is touched. *)
Theorem extract_yaml_main_fails_early (args : Args) (w : World) :
  (given (missions_out args) = false /\ given (collectibles_out args) = false
   /\ given (unlockables_out args) = false)
  \/ file_text w (input args) = None
  \/ (exists text, file_text w (input args) = Some text
                   /\ yaml_safe_load text = None) ->
  run (extract_yaml_main args) w = (1%Z, w).
Proof.
  unfold run, extract_yaml_main.
  intros [(-> & -> & ->)|H]; [done|].
  destruct (negb (given (missions_out args))
            && negb (given (collectibles_out args))
            && negb (given (unlockables_out args))); [done|].
  unfold bind, read_text.
  destruct H as [->|(text & -> & ->)]; done.
Qed.

End YamlFacts.

Lemma write_yaml_and_compressed_artifacts_witness :
  let w := mkWorld {[ "data/c.yaml" := "Vault: [a]" ]} [] in
  let w' := snd (@write_yaml_and_compressed toy_libs
                   (VMap [("Vault", VList [str "z"])]) "data/c.yaml" true
                   (Some "COLLECTIBLES_COMPRESSED") (Some "blobs.js") w) in
  exists doc,
    @document_to_write toy_libs w "data/c.yaml" (VMap [("Vault", VList [str "z"])])
    = Ok doc
    /\ files w' !! "data/c.yaml" = Some (@yaml_safe_dump toy_libs doc)
    /\ files w' !! "data/c_compressed.txt"
       = Some (@compress_b64 toy_libs (@yaml_safe_dump toy_libs doc)).
Proof.
  intros w w'.
  apply (@write_yaml_and_compressed_artifacts toy_libs
           (VMap [("Vault", VList [str "z"])]) "data/c.yaml"
           (Some "COLLECTIBLES_COMPRESSED") (Some "blobs.js") w w');
    [by vm_compute|done..].
Defined.

Lemma write_yaml_and_compressed_failed_merge_witness :
  let w := mkWorld {[ "data/c.yaml" := "Vault: [a]" ]} [] in
  exists e,
    @write_yaml_and_compressed toy_libs (int 3) "data/c.yaml" true None None w
    = (Raise e, w).
Proof.
  intros w.
  apply (@write_yaml_and_compressed_failed_merge toy_libs (int 3)
           "data/c.yaml" "Vault: [a]" true None None w); [done|done|].
  simpl. by left.
Defined.

Lemma extract_yaml_main_fails_early_witness :
  run (@extract_yaml_main toy_libs collectibles_args) (mkWorld ∅ []) 
  = (1%Z, mkWorld ∅ []).
Proof.
  apply (@extract_yaml_main_fails_early toy_libs collectibles_args
           (mkWorld ∅ [])).
  right. left. reflexivity.
Defined.

(** ** [update_blobs.py] and the text list *)

Lemma rstrip_append (s t : string) :
  rstrip (s +:+ t)
  = match rstrip t with
    | EmptyString => rstrip s
    | String _ _ => s +:+ rstrip t
    end.
Proof.
  induction s as [|c s IH].
  - rewrite !append_empty. by destruct (rstrip t).
  - rewrite append_cons. cbn [rstrip]. rewrite IH.
    destruct (rstrip t) as [|a r]; [done|].
    rewrite append_cons. by destruct s.
Qed.

Lemma clean_entry_rstrip (e : string) : clean_entry e = true -> rstrip e = e.
Proof.
  intros (Hne & Hs & _)%clean_entry_spec.
  pose proof (py_strip_nonspace_ends e Hs) as Hc.
  destruct e as [|c e]; [done|]. unfold py_strip in Hs.
  cbn [lstrip] in Hs. by rewrite Hc in Hs.
Qed.

Lemma join_cons2 (sep e e' : string) (l : list string) :
  join sep (e :: e' :: l) = e +:+ sep +:+ join sep (e' :: l).
Proof. reflexivity. Qed.

Lemma clean_join_nonempty (l : list string) :
  Forall (fun e => clean_entry e = true) l -> l <> [] -> join nl l <> "".
Proof.
  intros Hl Hne. destruct Hl as [|e r He Hr]; [done|].
  apply clean_entry_spec in He as (He & _).
  destruct e as [|c e]; [done|]. destruct r; [done|].
  rewrite join_cons2, append_cons. done.
Qed.

Lemma rstrip_lines_text (l : list string) :
  Forall (fun e => clean_entry e = true) l -> rstrip (lines_text l) = join nl l.
Proof.
  induction 1 as [|e r He Hr IH]; [done|].
  rewrite lines_text_cons, rstrip_append. cbn [rstrip]. rewrite IH.
  destruct r as [|e' r].
  - cbn [join]. assert (is_space lf = true) as -> by done.
    by apply clean_entry_rstrip.
  - pose proof (clean_join_nonempty (e' :: r) Hr) as Hne.
    destruct (join nl (e' :: r)) as [|a j] eqn:E; [by exfalso; apply Hne|].
    by rewrite join_cons2, E.
Qed.

Lemma lstrip_lines_text (l : list string) :
  Forall (fun e => clean_entry e = true) l -> lstrip (lines_text l) = lines_text l.
Proof.
  intros [|e r He _]; [done|]. rewrite lines_text_cons.
  apply clean_entry_spec in He as (Hne & Hs & _).
  pose proof (py_strip_nonspace_ends e Hs) as Hc.
  destruct e as [|c e]; [done|]. rewrite append_cons. cbn [lstrip].
  by rewrite Hc.
Qed.

Lemma split_nl_single (e : string) :
  contains_char lf e = false -> split_nl e = [e].
Proof.
  induction e as [|c e IH]; [done|].
  cbn [contains_char split_nl]. change (ascii_of_N 10) with lf.
  rewrite Ascii.eqb_sym. intros [-> He]%orb_false_elim. by rewrite (IH He).
Qed.

Lemma split_nl_join (l : list string) :
  Forall (fun e => contains_char lf e = false) l -> l <> [] ->
  split_nl (join nl l) = l.
Proof.
  induction 1 as [|e r He Hr IH]; [done|]. intros _.
  destruct r as [|e' r]; [by apply split_nl_single|].
  rewrite join_cons2. change (nl +:+ ?x) with (String lf x).
  rewrite (split_nl_line _ _ He), IH; done.
Qed.

Lemma contains_char_join (c : ascii) (sep : string) (l : list string) :
  contains_char c (join sep l)
  = existsb (contains_char c) l
    || (contains_char c sep && (1 <? length l)).
Proof.
  induction l as [|e r IH]; [by rewrite andb_false_r|].
  destruct r as [|e' r].
  - cbn [join existsb length].
    by destruct (contains_char c e), (contains_char c sep).
  - rewrite join_cons2, !contains_char_append, IH. cbn [existsb length].
    assert ((1 <? S (S (length r))) = true) as -> by done.
    destruct (contains_char c e), (contains_char c e'),
      (existsb (contains_char c) r), (contains_char c sep),
      (1 <? S (length r)); done.
Qed.

Lemma bind_eval {A B : Type} (m : M A) (k : A -> M B) (w : World)
    (r : Outcome A) (w' : World) :
  m w = (r, w') ->
  bind m k w = match r with Ok a => k a w' | Raise e => (Raise e, w') end.
Proof. intros H. unfold bind. by rewrite H. Qed.

Section BlobFacts.
Context {L : Libs}.

Lemma compress_text_list_lines (text_file : string) (entries : list string)
    (w : World) :
  files w !! text_file = Some (lines_text entries) ->
  Forall (fun e => clean_entry e = true) entries ->
  Forall (fun e => contains_char ","%char e = false) entries ->
  compress_text_list text_file w = (Ok (compress_b64 (join "," entries)), w).
Proof.
  intros Hfile Hclean Hcomma.
  assert (Forall (fun e => e <> "" /\ py_strip e = e
                           /\ contains_char lf e = false
                           /\ contains_char cr e = false) entries) as Hl.
  { eapply Forall_impl; [exact Hclean|]. intros e. apply clean_entry_spec. }
  assert (Forall (fun e => contains_char lf e = false) entries) as Hlf.
  { eapply Forall_impl; [exact Hl|]. by intros e (_ & _ & ? & _). }
  assert (filter (fun l => nonempty l) (map py_strip entries) = entries)
    as Hfilter.
  { clear Hfile Hcomma Hlf Hclean.
    induction Hl as [|x xs (Hne & Hs & _) _ IH]; [done|].
    cbn [map]. rewrite Hs, filter_cons_True.
    - by rewrite IH.
    - unfold nonempty. by apply Is_true_true, negb_true_iff, String.eqb_neq. }
  unfold compress_text_list, bind, read_text, file_text. rewrite Hfile.
  cbn [fmap option_fmap option_map]. unfold ret. do 3 f_equal.
  rewrite universal_newlines_id.
  2: { apply lines_text_no_cr. eapply Forall_impl; [exact Hl|].
       by intros e (_ & _ & _ & ?). }
  unfold py_strip. rewrite (lstrip_lines_text _ Hclean),
    (rstrip_lines_text _ Hclean).
  change (ascii_of_N 10) with lf. rewrite !contains_char_join.
  assert (existsb (contains_char lf) entries = false) as ->.
  { apply not_true_iff_false. intros (e & He & Hc)%existsb_exists.
    rewrite Forall_forall in Hlf.
    by rewrite (Hlf e) in Hc by (by apply list_elem_of_In). }
  assert (existsb (contains_char ","%char) entries = false) as ->.
  { apply not_true_iff_false. intros (e & He & Hc)%existsb_exists.
    rewrite Forall_forall in Hcomma.
    by rewrite (Hcomma e) in Hc by (by apply list_elem_of_In). }
  assert (contains_char lf nl = true) as -> by done.
  assert (contains_char ","%char nl = false) as -> by done.
  cbn [orb andb negb].
  destruct entries as [|e [|e' r]]; [done..|].
  assert ((1 <? length (e :: e' :: r)) = true) as -> by done.
  rewrite split_nl_join by done. unfold py_strip in Hfilter.
  by rewrite Hfilter.
Qed.

(** X18.  The text file that [extract_and_merge] writes and the payload it
    compresses agree with [update_blobs.py --text]: for clean entries without
    commas, [compress_text_list] on the file of their lines returns the
    compression of the entries joined by commas, and changes nothing. *)
Theorem compress_text_list_of_lines (text_file : string)
    (entries : list string) (w : World) :
  files w !! text_file = Some (lines_text entries) ->
  Forall (fun e => clean_entry e = true) entries ->
  Forall (fun e => contains_char ","%char e = false) entries ->
  compress_text_list text_file w = (Ok (compress_b64 (join "," entries)), w).
Proof. apply compress_text_list_lines. Qed.

Lemma readers_pure (source : BlobSource) (w : World) :
  exists r,
    match source with
    | FromFile path => read_compressed_file path
    | FromYaml path => compress_yaml_file path
    | FromText path => compress_text_list path
    end w = (r, w)
    /\ forall e, r = Raise e -> exit_code (@Raise unit e) = 1%Z.
Proof.
  destruct source as [path|path|path];
    unfold read_compressed_file, compress_yaml_file, compress_text_list,
      bind, read_text, ret, raise;
    destruct (file_text w path); try (by eexists; split; [done|intros ? [= <-]]).
  destruct (yaml_safe_load s); by eexists; split; [done|intros ? [= <-]].
Qed.

(** X19.  [update_blobs.py] changes no file but [blobs.js], and exits with
    status 0 only when [blobs.js] exists and holds the constant. *)
Theorem update_blobs_main_effect (args : BlobArgs) (w : World) :
  let blobs_js_path := resolve_from_script_dir (ub_blobs_js args) in
  let result := run (update_blobs_main args) w in
  (forall path, path <> blobs_js_path ->
     files (snd result) !! path = files w !! path)
  /\ (fst result = 0%Z ->
      exists content,
        file_text w blobs_js_path = Some content
        /\ re_search (blob_pattern (ub_constant args)) content = true).
Proof.
  intros blobs_js_path result. subst result.
  assert (forall m : M string,
    (exists r, m w = (r, w)
               /\ forall e, r = Raise e -> exit_code (@Raise unit e) = 1%Z) ->
    let result :=
      run (compressed_value <- m ;;
           if String.eqb compressed_value "" then raise (SystemExit 1) else
           success <- update_blob_constant blobs_js_path (ub_constant args)
                        compressed_value ;;
           if negb success then raise (SystemExit 1) else ret tt) w in
    (forall path, path <> blobs_js_path ->
       files (snd result) !! path = files w !! path)
    /\ (fst result = 0%Z ->
        exists content,
          file_text w blobs_js_path = Some content
          /\ re_search (blob_pattern (ub_constant args)) content = true))
    as Htail.
  { intros m (r & Hr & Hexit) result. subst result. unfold run.
    rewrite !(bind_eval m _ w r w Hr).
    destruct r as [value|e].
    2: { cbn [fst snd]. split; [done|].
         change (exit_code (@Raise unit e) = 0%Z -> exists content : string,
                   file_text w blobs_js_path = Some content
                   /\ re_search (blob_pattern (ub_constant args)) content = true).
         by rewrite (Hexit e eq_refl). }
    destruct (String.eqb value ""); [by cbn|].
    destruct (update_blob_constant_cases blobs_js_path (ub_constant args)
                value w) as (b & w' & Hb & Hw & Htrue & _).
    rewrite !(bind_eval _ _ w b w' Hb).
    destruct b as [[|]|e]; cbn [negb fst snd exit_code]; unfold ret, raise;
      cbn [fst snd exit_code].
    - split; [|by intros _; apply Htrue].
      intros path Hne. destruct Hw as [->|(_ & nc & ->)]; [done|].
      cbn [files]. by rewrite lookup_insert_ne.
    - split; [|done]. intros path Hne.
      by destruct Hw as [->|([=] & _)].
    - split; [|by intros _; apply (update_blob_constant_raise_found _ _ _ _ _ _ Hb)].
      intros path Hne. by destruct Hw as [->|([=] & _)]. }
  assert (forall path (reader : string -> M string),
    (exists r, reader path w = (r, w)
               /\ forall e, r = Raise e -> exit_code (@Raise unit e) = 1%Z) ->
    exists r,
      (if String.eqb path "" then raise UnboundLocalError
       else found <- path_exists path ;;
            if negb found then raise (SystemExit 1) else reader path) w
      = (r, w)
      /\ forall e, r = Raise e -> exit_code (@Raise unit e) = 1%Z) as Hload.
  { intros path reader (r & Hr & Hexit). unfold bind, raise.
    destruct (String.eqb path "");
      [by eexists; split; [done|intros ? [= <-]]|].
    rewrite path_exists_eval.
    destruct (file_text w path); cbn [negb]; [eauto|].
    by eexists; split; [done|intros ? [= <-]]. }
  unfold update_blobs_main. cbv beta zeta. fold blobs_js_path.
  destruct (ub_source args) as [path|path|path] eqn:Hsrc;
    apply Htail, Hload.
  - apply (readers_pure (FromFile path)).
  - apply (readers_pure (FromYaml path)).
  - apply (readers_pure (FromText path)).
Qed.

(** X20.  A save file without unique rewards leaves everything as it is:
    [extract_lists.py -r] on a document with no [state] mapping, or with a
    [state] that has no [unique_rewards], ends with status 0 and writes
    nothing. *)
Theorem extract_lists_main_no_rewards (args : ListArgs) (w : World)
    (text : string) (document : dict Value) :
  rewards args = true ->
  file_text w (inputyaml args) = Some text ->
  yaml_safe_load text = Some (VMap document) ->
  dict_get "state" document = None
  \/ (exists state, dict_get "state" document = Some (VMap state)
                    /\ dict_get "unique_rewards" state = None) ->
  run (extract_lists_main args) w = (0%Z, w).
Proof.
  intros Hr Hfile Hload Hstate. unfold run, extract_lists_main. rewrite Hr.
  erewrite extract_and_merge_skip; [done|exact Hfile|exact Hload| |].
  - unfold extract_rewards_from_yaml, py_get.
    destruct Hstate as [->|(state & -> & ->)]; reflexivity.
  - apply empty_subseteq.
Qed.

End BlobFacts.

Lemma compress_text_list_of_lines_witness :
  @compress_text_list toy_libs "locations.txt"
    (mkWorld {[ "locations.txt" := lines_text ["Beta"; "alpha"; "gamma"] ]} [])
  = (Ok (@compress_b64 toy_libs (join "," ["Beta"; "alpha"; "gamma"])),
     mkWorld {[ "locations.txt" := lines_text ["Beta"; "alpha"; "gamma"] ]} []).
Proof.
  apply (@compress_text_list_of_lines toy_libs "locations.txt"
           ["Beta"; "alpha"; "gamma"]); [done|by repeat constructor..].
Defined.

Lemma extract_lists_main_no_rewards_witness :
  run (@extract_lists_main toy_libs
         {| inputyaml := "save.yaml"; outputtext := "rewards.txt";
            compressed := None; rewards := true;
            el_blobs_js := Some "blobs.js" |})
      (mkWorld {[ "save.yaml" := "stats: {}" ]} [])
  = (0%Z, mkWorld {[ "save.yaml" := "stats: {}" ]} []).
Proof.
  apply (@extract_lists_main_no_rewards toy_libs _ _ "stats: {}"
           [("stats", VMap [("openworld", VMap [("collectibles",
              VMap [("Vault", VList [str "b"; str "A"])])])])]);
    [reflexivity..|by left].
Defined.

(** ** Running [write_yaml_and_compressed] again *)

Section RerunFacts.
Context {L : Libs}.

Lemma merge_yaml_empty_result (existing new : dict Value) :
  merge_yaml existing new = [] -> existing = [] /\ new = [].
Proof.
  intros H.
  assert (forall k, k ∈ keys existing \/ k ∈ keys new -> False) as Hk.
  { intros k Hin. apply keys_merge_items in Hin.
    assert (k ∈ keys (merge_yaml existing new)) as Hin'.
    { rewrite merge_yaml_items, (keys_sort_items (merge_items existing new)).
      exact Hin. }
    rewrite H in Hin'. inversion Hin'. }
  split.
  - destruct existing as [|[k v] r]; [done|]. exfalso. apply (Hk k). left. left.
  - destruct new as [|[k v] r]; [done|]. exfalso. apply (Hk k). right. left.
Qed.

Lemma merge_yaml_any_mapping_again (entries new : dict Value) (doc : Value) :
  self_mergeable (VMap new) -> fully_sorted (VMap new) = true ->
  merge_yaml_any (VMap entries) (VMap new) = Ok doc ->
  merge_yaml_any (if py_truthy doc then doc else VMap []) (VMap new) = Ok doc.
Proof.
  intros Hsm Hfs [= <-]. cbn [py_truthy].
  destruct (merge_yaml entries new) as [|kv r] eqn:E.
  - apply merge_yaml_empty_result in E as [-> ->]. reflexivity.
  - rewrite <- E. cbn [merge_yaml_any]. f_equal. f_equal.
    by apply (merge_yaml_again (VMap new)).
Qed.

Lemma merge_yaml_any_again (loaded doc : Value) (new : dict Value) :
  self_mergeable (VMap new) -> fully_sorted (VMap new) = true ->
  merge_yaml_any (if py_truthy loaded then loaded else VMap []) (VMap new)
  = Ok doc ->
  merge_yaml_any (if py_truthy doc then doc else VMap []) (VMap new) = Ok doc.
Proof.
  intros Hsm Hfs. destruct (py_truthy loaded) eqn:Ht.
  2: { by apply merge_yaml_any_mapping_again. }
  destruct loaded as [s|items|entries].
  - cbn [merge_yaml_any]. destruct new; [|done]. intros [= <-].
    by rewrite Ht.
  - cbn [merge_yaml_any]. destruct new; [|done]. intros [= <-].
    by rewrite Ht.
  - by apply merge_yaml_any_mapping_again.
Qed.

(** X21.  A second call with the same tree finds nothing to change: when the
    incoming mapping is canonical and merges with itself into itself, and the
    YAML library reads back the document the first call wrote, the document
    to write after the first call is the one it wrote. *)
Theorem write_yaml_and_compressed_rerun (new : dict Value) (output_yaml : string)
    (compressed : bool) (blob_constant blobs_js_path : option string)
    (w w' : World) :
  let obj := VMap new in
  let compressed_txt := path_without_suffix output_yaml +:+ "_compressed.txt" in
  write_yaml_and_compressed obj output_yaml compressed blob_constant
    blobs_js_path w = (Ok tt, w') ->
  self_mergeable obj -> fully_sorted obj = true ->
  compressed_txt <> output_yaml ->
  or_empty blobs_js_path <> output_yaml ->
  (forall doc, document_to_write w output_yaml obj = Ok doc ->
     yaml_safe_load (universal_newlines (yaml_safe_dump doc)) = Some doc) ->
  exists doc,
    document_to_write w output_yaml obj = Ok doc
    /\ files w' !! output_yaml = Some (yaml_safe_dump doc)
    /\ document_to_write w' output_yaml obj = Ok doc.
Proof.
  intros obj compressed_txt Hrun Hsm Hfs Hc Hb Hround.
  rewrite write_yaml_and_compressed_eval in Hrun.
  destruct (document_to_write w output_yaml obj) as [doc|e] eqn:Hdoc; [|done].
  specialize (Hround doc eq_refl). exists doc. split; [done|].
  destruct (String.eqb output_yaml "") eqn:Hout; [done|]. cbv zeta in Hrun.
  fold compressed_txt in Hrun.
  assert (files w' !! output_yaml = Some (yaml_safe_dump doc)) as Hfile.
  { destruct compressed.
    - set (w2 := {| files := <[compressed_txt := compress_b64 (yaml_safe_dump doc)]>
                               (<[output_yaml := yaml_safe_dump doc]> (files w));
                    written := (written w ++ [output_yaml]) ++ [compressed_txt] |})
        in *.
      assert (files w' !! output_yaml = files w2 !! output_yaml) as ->.
      { destruct (given blob_constant && given blobs_js_path && has_update_blobs).
        - pose proof (update_blob_constant_frame (or_empty blobs_js_path)
                        (or_empty blob_constant)
                        (compress_b64 (yaml_safe_dump doc)) output_yaml w2)
            as Hfr.
          destruct (update_blob_constant _ _ _ _) as [[?|?] w3]; [|done].
          injection Hrun as <-. apply Hfr. by apply not_eq_sym.
        - by injection Hrun as <-. }
      unfold w2. cbn [files]. rewrite lookup_insert_ne by done.
      apply lookup_insert_eq.
    - injection Hrun as <-. cbn [files]. apply lookup_insert_eq. }
  split; [done|].
  unfold document_to_write, nonempty, file_text. rewrite Hout, Hfile.
  cbn [negb fmap option_fmap option_map]. rewrite Hround.
  unfold document_to_write, nonempty in Hdoc. rewrite Hout in Hdoc.
  cbn [negb] in Hdoc.
  destruct (file_text w output_yaml) as [text|].
  - destruct (yaml_safe_load text) as [loaded|]; [|done].
    by apply (merge_yaml_any_again _ _ _ Hsm Hfs Hdoc).
  - injection Hdoc as <-. unfold obj in *. cbn [py_truthy].
    destruct new as [|kv r] eqn:E; [done|]. rewrite <- E in *.
    cbn [merge_yaml_any]. do 2 f_equal.
    pose proof (merge_yaml_self (VMap new) Hsm) as Hself.
    cbv beta iota in Hself.
    pose proof (sort_dict_fixed (VMap new) Hfs) as Hfix.
    rewrite Hfix in Hself. by injection Hself.
Qed.

End RerunFacts.

(** ** [extract_missionsets] *)

(** One mission set as [extract_missionsets] copies it: its [missions]
    mapping, when it has one, with the keys in plain sorted order. *)
Lemma copy_missionset_mapping (entries : dict Value) :
  copy_missionset (VMap entries)
  = Ok (VMap (match dict_get "missions" entries with
              | Some (VMap missions) =>
                  dict_set "missions" (VMap (sorted_by_key missions)) entries
              | _ => entries
              end)).
Proof.
  unfold copy_missionset. cbn [py_dict].
  by destruct (dict_get "missions" entries) as [[| |]|].
Qed.

Lemma copy_missionset_copied (entries : dict Value) :
  exists copy,
    copy_missionset (VMap entries) = Ok copy
    /\ copied_missionset (VMap entries) copy.
Proof.
  rewrite copy_missionset_mapping. eexists. split; [done|].
  exists entries. eexists. split_and!; [done|done|..].
  - destruct (dict_get "missions" entries) as [[| |missions]|] eqn:E; [done..| |done].
    rewrite keys_dict_set. unfold dict_has. by rewrite E.
  - intros k Hk.
    destruct (dict_get "missions" entries) as [[| |missions]|]; [done..| |done].
    by rewrite dict_get_set_ne.
  - destruct (dict_get "missions" entries) as [[| |missions]|] eqn:E; [done..| |done].
    exists (sorted_by_key missions). rewrite dict_get_set_eq.
    split_and!; [done|apply sorted_str_perm|apply sorted_str_sorted].
Qed.

Lemma fold_copy_missionsets (sets acc : dict Value) :
  Forall (fun kv => shape (snd kv) = ShMapping) sets ->
  NoDup (keys acc ++ keys sets) ->
  exists copies,
    fold_left
      (fun acc0 '(missionset_key, missionset) =>
         match acc0, copy_missionset missionset with
         | Ok (VMap sorted_sets), Ok missionset_copy =>
             Ok (VMap (dict_set missionset_key missionset_copy sorted_sets))
         | Ok other, Ok _ => Ok other
         | Ok _, Raise e => Raise e
         | Raise e, _ => Raise e
         end)
      sets (Ok (VMap acc))
    = Ok (VMap (acc ++ copies))
    /\ keys copies = keys sets
    /\ Forall2 (fun kv kc => fst kc = fst kv
                             /\ copied_missionset (snd kv) (snd kc))
               sets copies.
Proof.
  intros Hshape. revert acc.
  induction Hshape as [|[k ms] rest Hms _ IH]; intros acc Hnd.
  - exists []. by rewrite app_nil_r.
  - destruct ms as [s|items|entries]; [done..|].
    cbn [fold_left].
    destruct (copy_missionset_copied entries) as (copy & -> & Hcopy).
    assert (dict_set k copy acc = acc ++ [(k, copy)]) as Hset.
    { cbn [keys map] in Hnd. apply NoDup_app in Hnd as (_ & Hk & _).
      clear IH. induction acc as [|[k0 v0] acc IHacc]; [done|]. cbn [dict_set].
      destruct (String.eqb_spec k k0) as [->|Hne].
      - exfalso. apply (Hk k0); left.
      - cbn [app]. f_equal. apply IHacc. intros x Hx. apply Hk. by right. }
    destruct copy as [s|items|copied];
      [by destruct Hcopy as (? & ? & _ & ? & _)..|].
    rewrite Hset.
    destruct (IH (acc ++ [(k, VMap copied)])) as (copies & Hfold & Hkeys & Hall).
    { unfold keys in *. rewrite map_app. cbn [map] in *.
      by rewrite <- app_assoc. }
    exists ((k, VMap copied) :: copies). rewrite Hfold, <- app_assoc.
    split_and!; [done| |].
    { unfold keys in *. cbn [map fst]. by rewrite Hkeys. }
    by constructor.
Qed.

(** X22.  On a save whose mission sets are mappings under distinct keys,
    [extract_missionsets] returns one copy per mission set, under the same
    keys in increasing code-point order; each copy has the keys and the
    values of its mission set, except that its [missions] mapping, if it has
    one, holds the same items in increasing order of their keys. *)
Theorem extract_missionsets_sorted (document missions local_sets : dict Value) :
  dict_get "missions" document = Some (VMap missions) ->
  dict_get "local_sets" missions = Some (VMap local_sets) ->
  distinct (keys local_sets) = true ->
  Forall (fun kv => shape (snd kv) = ShMapping) local_sets ->
  exists sets,
    extract_missionsets (VMap document) = Ok (VMap sets)
    /\ Permutation (keys sets) (keys local_sets)
    /\ sortedb (fun k => k) (keys sets) = true
    /\ (forall k missionset,
          dict_get k local_sets = Some missionset ->
          exists copy,
            dict_get k sets = Some copy /\ copied_missionset missionset copy).
Proof.
  intros Hm Hl Hnd%distinct_NoDup Hshape.
  unfold extract_missionsets, py_get. rewrite Hm, Hl.
  assert (Permutation (keys (sorted_by_key local_sets)) (keys local_sets))
    as Hperm.
  { unfold keys, sorted_by_key.
    apply Permutation_map, sorted_str_perm. }
  destruct (fold_copy_missionsets (sorted_by_key local_sets) []) as
    (copies & Hfold & Hkeys & Hall).
  - unfold sorted_by_key. by rewrite (sorted_str_perm (fun kv => fst kv)).
  - cbn [keys map app]. fold (keys (sorted_by_key local_sets)).
    by rewrite Hperm.
  - exists copies. rewrite Hfold. split_and!; [done| | |].
    + by rewrite Hkeys.
    + rewrite Hkeys. unfold keys, sorted_by_key.
      pose proof (sorted_str_sorted (fun kv : string * Value => fst kv) local_sets)
        as Hs.
      revert Hs. generalize (sorted_str (fun kv : string * Value => kv.1) local_sets).
      induction l as [|[k v] [|[k' v'] r] IH]; [done..|].
      cbn [map sortedb fst]. intros [-> Hr]%andb_prop. by apply IH.
    + intros k missionset Hget%dict_get_Some_elem.
      assert ((k, missionset) ∈ sorted_by_key local_sets) as Hin
        by by apply sorted_str_elem.
      apply list_elem_of_lookup in Hin as [i Hi].
      destruct (Forall2_lookup_l _ _ _ _ _ Hall Hi) as ([k' copy] & Hc & Hk & Hcopy).
      cbn [fst snd] in Hk, Hcopy. subst k'.
      exists copy. split; [|done].
      apply dict_get_elem; [by rewrite Hkeys, Hperm|].
      by apply list_elem_of_lookup_2 in Hc.
Qed.

Lemma extract_missionsets_sorted_witness :
  exists sets,
    extract_missionsets
      (VMap [("missions", VMap [("local_sets",
         VMap [("set_b", VMap [("missions", VMap [("m2", int 1); ("m1", int 2)])]);
               ("set_a", VMap [("status", str "done")])])])])
    = Ok (VMap sets)
    /\ Permutation (keys sets) ["set_b"; "set_a"]
    /\ sortedb (fun k => k) (keys sets) = true
    /\ (forall k missionset,
          dict_get k
            [("set_b", VMap [("missions", VMap [("m2", int 1); ("m1", int 2)])]);
             ("set_a", VMap [("status", str "done")])]
          = Some missionset ->
          exists copy,
            dict_get k sets = Some copy /\ copied_missionset missionset copy).
Proof.
  apply (extract_missionsets_sorted
           [("missions", VMap [("local_sets",
              VMap [("set_b", VMap [("missions", VMap [("m2", int 1); ("m1", int 2)])]);
                    ("set_a", VMap [("status", str "done")])])])]
           [("local_sets",
              VMap [("set_b", VMap [("missions", VMap [("m2", int 1); ("m1", int 2)])]);
                    ("set_a", VMap [("status", str "done")])])]
           [("set_b", VMap [("missions", VMap [("m2", int 1); ("m1", int 2)])]);
            ("set_a", VMap [("status", str "done")])]);
    [reflexivity..|by repeat constructor].
Defined.

Lemma write_yaml_and_compressed_rerun_witness :
  let w := mkWorld ∅ [] in
  let w' := snd (@write_yaml_and_compressed canonical_libs
                   (VMap canonical_collectibles) "data/c.yaml" true None None w) in
  exists doc,
    @document_to_write canonical_libs w "data/c.yaml" (VMap canonical_collectibles)
    = Ok doc
    /\ files w' !! "data/c.yaml" = Some (@yaml_safe_dump canonical_libs doc)
    /\ @document_to_write canonical_libs w' "data/c.yaml"
         (VMap canonical_collectibles) = Ok doc.
Proof.
  intros w w'.
  apply (@write_yaml_and_compressed_rerun canonical_libs canonical_collectibles
           "data/c.yaml" true None None w w');
    [by vm_compute| |reflexivity|done|done|].
  - simpl. repeat split; repeat constructor.
  - intros doc [= <-]. reflexivity.
Defined.
